(** * vocabs_csv2jsonl: the vocabulary CSV to JSON/JSONL converter

    A shallow embedding of [scripts/vocabs_csv2jsonl/vocabs_csv2jsonl.py]
    and the properties of its normalization pipeline.

    A Python [str] is a list of characters.  The development covers the
    code points below 256, for which [str.isspace] and [str.lower] are the
    tables [isspace] and [lower_char] below. *)

From Stdlib Require Import Ascii String DecimalString DecimalNat List Bool Arith NArith Lia.
From Stdlib Require Finite.
Import ListNotations.

Local Open Scope list_scope.

(** ** Python strings *)

Definition str := list ascii.

(** A literal of the source. *)
Definition lit (x : string) : str := list_ascii_of_string x.

Fixpoint str_eqb (a b : str) : bool :=
  match a, b with
  | [], [] => true
  | x :: a', y :: b' => Ascii.eqb x y && str_eqb a' b'
  | _, _ => false
  end.

Definition LF : ascii := "010".
Definition CR : ascii := "013".
Definition DQUOTE : ascii := "034".

(** [str.isspace] on one character: TAB, LF, VT, FF, CR, FS, GS, RS, US,
    SPACE, NEL and NBSP. *)
Definition isspace (c : ascii) : bool :=
  let n := nat_of_ascii c in
  (((9 <=? n) && (n <=? 13)) || ((28 <=? n) && (n <=? 32))
   || (n =? 133) || (n =? 160))%nat.

(** [str.lower] on one character: A-Z, and the Latin-1 capitals
    U+00C0..U+00DE except the multiplication sign U+00D7. *)
Definition lower_char (c : ascii) : ascii :=
  let n := nat_of_ascii c in
  if (((65 <=? n) && (n <=? 90))
      || ((192 <=? n) && (n <=? 222) && negb (n =? 215)))%nat
  then ascii_of_nat (n + 32) else c.

Definition lower (s : str) : str := map lower_char s.

(** [s.lstrip()] *)
Fixpoint lstrip (s : str) : str :=
  match s with
  | [] => []
  | c :: t => if isspace c then lstrip t else s
  end.

(** [s.rstrip()] *)
Fixpoint rstrip (s : str) : str :=
  match s with
  | [] => []
  | c :: t =>
      match rstrip t with
      | [] => if isspace c then [] else [c]
      | r => c :: r
      end
  end.

(** [s.strip()] *)
Definition strip (s : str) : str := rstrip (lstrip s).

(** [s.rstrip(chars)]: every trailing character that is in [chars] goes. *)
Fixpoint rstrip_chars (chars : str) (s : str) : str :=
  match s with
  | [] => []
  | c :: t =>
      match rstrip_chars chars t with
      | [] => if existsb (Ascii.eqb c) chars then [] else [c]
      | r => c :: r
      end
  end.

(** [s.split(sep)] for a separator of one character; never empty. *)
Fixpoint split (sep : ascii) (s : str) : list str :=
  match s with
  | [] => [[]]
  | c :: t =>
      if Ascii.eqb c sep then [] :: split sep t
      else match split sep t with
           | [] => [[c]]
           | h :: r => (c :: h) :: r
           end
  end.

(** [l[-1]] on a list of strings ([IndexError] cannot happen after [split]). *)
Definition last_item (l : list str) : str := last l [].

(** [s.replace(a, b)] for patterns of one character. *)
Definition replace (a b : ascii) (s : str) : str :=
  map (fun c => if Ascii.eqb c a then b else c) s.

(** [s.startswith(p)] *)
Fixpoint startswith (p s : str) : bool :=
  match p, s with
  | [], _ => true
  | _ :: _, [] => false
  | x :: p', y :: s' => Ascii.eqb x y && startswith p' s'
  end.

(** [sub in s] *)
Fixpoint contains (sub s : str) : bool :=
  startswith sub s
  || match s with
     | [] => false
     | _ :: t => contains sub t
     end.

(** Truth value of a string. *)
Definition truthy (s : str) : bool :=
  match s with [] => false | _ :: _ => true end.

(** [a or b] on two strings. *)
Definition str_or (a b : str) : str := if truthy a then a else b.

(** ** slug_label_from_uri *)

Definition slug_label_from_uri (uri : str) : str :=
  if negb (truthy uri) then []
  else
    let u := rstrip_chars (lit "/#") (strip uri) in
    let last := last_item (split "#" (last_item (split "/" u))) in
    strip (replace "-" " " (replace "_" " " last)).

(** ** Exceptions *)

Inductive exn : Type :=
| RuntimeError      (* raised by [read_csv_rows_from_url] on [URLError] *)
| CsvError          (* [_csv.Error] *)
| AttributeError
| KeyError
| ValueError
| OSError           (* a file that cannot be opened or written *)
| OtherError.       (* any other failure of the fetch or of the decoding *)

Inductive outcome (A : Type) : Type :=
| Ret (a : A)
| Raise (e : exn).
Arguments Ret {A} a.
Arguments Raise {A} e.

Definition bind {A B : Type} (m : outcome A) (k : A -> outcome B) : outcome B :=
  match m with
  | Ret a => k a
  | Raise e => Raise e
  end.

Notation "x <- m ;; k" := (bind m (fun x => k))
  (at level 61, m at next level, right associativity).

(** ** Python dicts: insertion ordered, keys unique *)

Section Dict.
Context {K V : Type} (keqb : K -> K -> bool).

Definition dict : Type := list (K * V).

(** [d.get(k)] *)
Fixpoint dict_get (d : dict) (k : K) : option V :=
  match d with
  | [] => None
  | (k', v) :: t => if keqb k' k then Some v else dict_get t k
  end.

(** [d[k] = v]: a known key keeps its place, a new one goes last. *)
Fixpoint dict_set (d : dict) (k : K) (v : V) : dict :=
  match d with
  | [] => [(k, v)]
  | (k', v') :: t =>
      if keqb k' k then (k', v) :: t else (k', v') :: dict_set t k v
  end.

(** [dict(pairs)], and the body of a dict comprehension. *)
Fixpoint dict_update (d : dict) (pairs : list (K * V)) : dict :=
  match pairs with
  | [] => d
  | (k, v) :: t => dict_update (dict_set d k v) t
  end.

Definition dict_of (pairs : list (K * V)) : dict := dict_update [] pairs.

Definition dict_keys (d : dict) : list K := map fst d.
End Dict.

(** ** Reading the lines of a source *)

(** Iterating a text file opened with [newline=""]: lines end at LF, CR or
    CR LF, and keep their terminator. *)
Fixpoint file_lines_from (cur : str) (text : str) : list str :=
  match text with
  | [] => match cur with [] => [] | _ => [rev cur] end
  | c :: t =>
      if Ascii.eqb c LF then rev (c :: cur) :: file_lines_from [] t
      else if Ascii.eqb c CR then
        match t with
        | c' :: t' =>
            if Ascii.eqb c' LF then rev (c' :: c :: cur) :: file_lines_from [] t'
            else rev (c :: cur) :: file_lines_from [] t
        | [] => [rev (c :: cur)]
        end
      else file_lines_from (c :: cur) t
  end.

Definition file_lines (text : str) : list str := file_lines_from [] text.

(** The line boundaries of [str.splitlines]: LF, VT, FF, CR, FS, GS, RS, NEL. *)
Definition is_linebreak (c : ascii) : bool :=
  let n := nat_of_ascii c in
  (((10 <=? n) && (n <=? 13)) || ((28 <=? n) && (n <=? 30)) || (n =? 133))%nat.

(** [text.splitlines()]: terminators are dropped, CR LF is one boundary. *)
Fixpoint splitlines_from (cur : str) (text : str) : list str :=
  match text with
  | [] => match cur with [] => [] | _ => [rev cur] end
  | c :: t =>
      if Ascii.eqb c CR then
        match t with
        | c' :: t' =>
            if Ascii.eqb c' LF then rev cur :: splitlines_from [] t'
            else rev cur :: splitlines_from [] t
        | [] => [rev cur]
        end
      else if is_linebreak c then rev cur :: splitlines_from [] t
      else splitlines_from (c :: cur) t
  end.

Definition splitlines (text : str) : list str := splitlines_from [] text.

(** The test of both readers:
    [line.lstrip().startswith("#") or not line.strip()]. *)
Definition skipped (line : str) : bool :=
  startswith (lit "#") (lstrip line) || negb (truthy (strip line)).

(** The loop that both readers run over their lines. *)
Definition keep_lines (lines : list str) : list str :=
  filter (fun line => negb (skipped line)) lines.

(** ** The csv module: [csv.reader] with the excel dialect

    The reader of CPython's [_csv.c] for the default dialect: delimiter
    [,], quotechar the double quote, doublequote on, no escapechar, no
    skipinitialspace, minimal quoting, not strict.  The states that only an
    escapechar reaches are left out. *)

Inductive ParserState : Type :=
| START_RECORD
| START_FIELD
| IN_FIELD
| IN_QUOTED_FIELD
| QUOTE_IN_QUOTED_FIELD
| EAT_CRNL.

Definition ParserState_eqb (a b : ParserState) : bool :=
  match a, b with
  | START_RECORD, START_RECORD
  | START_FIELD, START_FIELD
  | IN_FIELD, IN_FIELD
  | IN_QUOTED_FIELD, IN_QUOTED_FIELD
  | QUOTE_IN_QUOTED_FIELD, QUOTE_IN_QUOTED_FIELD
  | EAT_CRNL, EAT_CRNL => true
  | _, _ => false
  end.

(** [fields] holds the fields saved so far, [field] the characters of the
    current field, last one first. *)
Record Reader : Type := mkReader {
  state : ParserState;
  fields : list str;
  field : str
}.

(** [csv.field_size_limit()] *)
Definition field_limit : N := 131072.

Definition parse_reset : Reader := mkReader START_RECORD [] [].

Definition parse_save_field (r : Reader) : Reader :=
  mkReader (state r) (fields r ++ [rev (field r)]) [].

Definition parse_add_char (r : Reader) (c : ascii) : outcome Reader :=
  if (field_limit <=? N.of_nat (length (field r)))%N then Raise CsvError
  else Ret (mkReader (state r) (fields r) (c :: field r)).

Definition set_state (r : Reader) (s : ParserState) : Reader :=
  mkReader s (fields r) (field r).

Definition is_crlf (c : ascii) : bool := Ascii.eqb c LF || Ascii.eqb c CR.

(** One step of the parser; [None] is the end of the line (EOL). *)
Definition parse_process_char (r : Reader) (c : option ascii) : outcome Reader :=
  let start_field (r : Reader) :=
    match c with
    | None => Ret (set_state (parse_save_field r) START_RECORD)
    | Some ch =>
        if is_crlf ch then Ret (set_state (parse_save_field r) EAT_CRNL)
        else if Ascii.eqb ch DQUOTE then Ret (set_state r IN_QUOTED_FIELD)
        else if Ascii.eqb ch "," then Ret (parse_save_field r)
        else r' <- parse_add_char r ch ;; Ret (set_state r' IN_FIELD)
    end in
  match state r with
  | START_RECORD =>
      match c with
      | None => Ret r
      | Some ch =>
          if is_crlf ch then Ret (set_state r EAT_CRNL)
          else start_field (set_state r START_FIELD)
      end
  | START_FIELD => start_field r
  | IN_FIELD =>
      match c with
      | None => Ret (set_state (parse_save_field r) START_RECORD)
      | Some ch =>
          if is_crlf ch then Ret (set_state (parse_save_field r) EAT_CRNL)
          else if Ascii.eqb ch "," then
            Ret (set_state (parse_save_field r) START_FIELD)
          else parse_add_char r ch
      end
  | IN_QUOTED_FIELD =>
      match c with
      | None => Ret r
      | Some ch =>
          if Ascii.eqb ch DQUOTE then Ret (set_state r QUOTE_IN_QUOTED_FIELD)
          else parse_add_char r ch
      end
  | QUOTE_IN_QUOTED_FIELD =>
      match c with
      | None => Ret (set_state (parse_save_field r) START_RECORD)
      | Some ch =>
          if Ascii.eqb ch DQUOTE then
            r' <- parse_add_char r ch ;; Ret (set_state r' IN_QUOTED_FIELD)
          else if Ascii.eqb ch "," then
            Ret (set_state (parse_save_field r) START_FIELD)
          else if is_crlf ch then
            Ret (set_state (parse_save_field r) EAT_CRNL)
          else r' <- parse_add_char r ch ;; Ret (set_state r' IN_FIELD)
      end
  | EAT_CRNL =>
      match c with
      | None => Ret (set_state r START_RECORD)
      | Some ch => if is_crlf ch then Ret r else Raise CsvError
      end
  end.

(** The characters of one line, in order. *)
Fixpoint parse_chars (r : Reader) (line : str) : outcome Reader :=
  match line with
  | [] => Ret r
  | c :: t => r' <- parse_process_char r (Some c) ;; parse_chars r' t
  end.

(** One line of the input: its characters, then EOL. *)
Definition parse_line (r : Reader) (line : str) : outcome Reader :=
  r' <- parse_chars r line ;; parse_process_char r' None.

(** [list(csv.reader(lines))].  A record ends with the line that leaves the
    parser in [START_RECORD]; input that ends inside a record gives what
    was read of it. *)
Fixpoint read_records (r : Reader) (lines : list str) : outcome (list (list str)) :=
  match lines with
  | [] =>
      if negb (Nat.eqb (length (field r)) 0)
         || ParserState_eqb (state r) IN_QUOTED_FIELD
      then Ret [fields (parse_save_field r)]
      else Ret []
  | line :: rest =>
      r' <- parse_line r line ;;
      match state r' with
      | START_RECORD =>
          rows <- read_records parse_reset rest ;; Ret (fields r' :: rows)
      | _ => read_records r' rest
      end
  end.

Definition csv_reader (lines : list str) : outcome (list (list str)) :=
  read_records parse_reset lines.

(** ** Raw rows *)

(** What a cell of a row can hold: [None] (the [restval] of a short row),
    a string, or the list of surplus cells that [csv.DictReader] stores
    under [restkey]. *)
Inductive cell : Type :=
| VNone
| VStr (s : str)
| VList (l : list str).

(** A key of a row: a column name, or [None] (the [restkey]). *)
Definition key : Type := option str.

Definition key_eqb (a b : key) : bool :=
  match a, b with
  | None, None => true
  | Some x, Some y => str_eqb x y
  | _, _ => false
  end.

Definition RawRow : Type := @dict key cell.

(** The dict that [DictReader.__next__] builds from one record. *)
Definition dict_row (fieldnames : list str) (row : list str) : RawRow :=
  let d := dict_of key_eqb (combine (map Some fieldnames) (map VStr row)) in
  let lf := length fieldnames in
  let lr := length row in
  if lf <? lr then dict_set key_eqb d None (VList (skipn lf row))
  else if lr <? lf then
    dict_update key_eqb d (map (fun k => (Some k, VNone)) (skipn lr fieldnames))
  else d.

Definition is_blank_record (row : list str) : bool :=
  match row with [] => true | _ :: _ => false end.

(** [list(csv.DictReader(lines))]: the first record gives the field names,
    records that are [[]] are skipped. *)
Definition DictReader (lines : list str) : outcome (list RawRow) :=
  rows <- csv_reader lines ;;
  match rows with
  | [] => Ret []
  | fieldnames :: data =>
      Ret (map (dict_row fieldnames)
               (filter (fun row => negb (is_blank_record row)) data))
  end.

(** ** _parse_csv_lines *)

(** [f"col{i}"] *)
Definition col (i : nat) : str :=
  lit "col" ++ lit (NilEmpty.string_of_uint (Nat.to_uint i)).

(** [max(len(r) for r in rows)] on a list that is not empty. *)
Definition max_len_of (rows : list (list str)) : nat :=
  fold_right (fun r m => Nat.max (length r) m) 0 rows.

(** [URIs indicate data, not headers] *)
Definition has_header (lines : list str) : bool :=
  match lines with
  | [] => false
  | l0 :: _ =>
      let first_line := strip l0 in
      negb (contains (lit "://") first_line)
  end.

Definition _parse_csv_lines (lines : list str) : outcome (list RawRow) :=
  match lines with
  | [] => Ret []
  | _ :: _ =>
      if has_header lines then DictReader lines
      else
        rows <- csv_reader lines ;;
        match rows with
        | [] => Ret []
        | _ :: _ =>
            let max_len := max_len_of rows in
            let headers := map col (seq 0 max_len) in
            Ret (map (fun r =>
                        let r_padded := r ++ repeat [] (max_len - length r) in
                        dict_of key_eqb
                          (combine (map Some headers) (map VStr r_padded)))
                     rows)
        end
  end.

(** ** normalize_vocab_entry *)

(** A canonical entry: a dict from field name to string. *)
Definition Entry : Type := @dict str str.

(** [v.strip() if v else ""] *)
Definition clean_value (v : cell) : outcome str :=
  match v with
  | VNone => Ret []
  | VStr s => if truthy s then Ret (strip s) else Ret []
  | VList [] => Ret []
  | VList (_ :: _) => Raise AttributeError
  end.

(** [{k.lower().strip(): (v.strip() if v else "") for k, v in row.items()}] *)
Fixpoint lowered_keys (acc : @dict str str) (items : RawRow) : outcome (@dict str str) :=
  match items with
  | [] => Ret acc
  | (k, v) :: t =>
      match k with
      | None => Raise AttributeError
      | Some name =>
          v' <- clean_value v ;;
          lowered_keys (dict_set str_eqb acc (strip (lower name)) v') t
      end
  end.

(** [keys.get(k) or rest] *)
Definition get_or (keys : @dict str str) (k : str) (rest : str) : str :=
  match dict_get str_eqb keys k with
  | Some v => if truthy v then v else rest
  | None => rest
  end.

(** [keys.get(k, "")] *)
Definition get_default (keys : @dict str str) (k : str) : str :=
  match dict_get str_eqb keys k with
  | Some v => v
  | None => []
  end.

(** [keys.get(a) or keys.get(b) or keys.get(c, "")] *)
Definition first_of (keys : @dict str str) (a b c : str) : str :=
  get_or keys a (get_or keys b (get_default keys c)).

Definition normalize_vocab_entry (vocab_name : str) (row : RawRow)
  : outcome (option Entry) :=
  if str_eqb vocab_name (lit "licenses") then
    keys <- lowered_keys [] row ;;
    let authority := first_of keys (lit "authority_uri") (lit "authority") (lit "col0") in
    let code := first_of keys (lit "code") (lit "id") (lit "col1") in
    let url := first_of keys (lit "url") (lit "license_url") (lit "col2") in
    if negb (truthy (str_or url (str_or code authority))) then Ret None
    else
      let entry : Entry := [] in
      let entry := if truthy authority
                   then dict_set str_eqb entry (lit "uri") authority else entry in
      let entry := if truthy code
                   then dict_set str_eqb entry (lit "code") code else entry in
      let entry := if truthy url
                   then dict_set str_eqb entry (lit "url") url else entry in
      let entry :=
        dict_set str_eqb entry (lit "label")
          (str_or code
             (str_or (slug_label_from_uri (str_or authority url)) (lit "Unknown"))) in
      Ret (Some entry)
  else
    keys <- lowered_keys [] row ;;
    let uri := first_of keys (lit "uri") (lit "url") (lit "col0") in
    let label := first_of keys (lit "label") (lit "name") (lit "col1") in
    let equiv := first_of keys (lit "equivalent_uri") (lit "equivalent") (lit "col2") in
    if negb (truthy uri) then Ret None
    else
      let entry : Entry := [(lit "uri", uri)] in
      let entry :=
        dict_set str_eqb entry (lit "label")
          (if truthy label then label else slug_label_from_uri uri) in
      let entry := if truthy equiv
                   then dict_set str_eqb entry (lit "equivalentUri") equiv else entry in
      Ret (Some entry).

(** ** The vocabularies *)

Definition VOCABS : @dict str str :=
  [ (lit "access_rights", lit "uri_label");
    (lit "file_types", lit "uri_label");
    (lit "licenses", lit "licenses");
    (lit "machine_readable", lit "uri_label");
    (lit "media_types", lit "uri_label");
    (lit "non_proprietary", lit "uri_label") ].

(** ** The world of one conversion *)

(** What the converter reads from outside.
    - [relative_to_root p] is [str(Path(p).relative_to(ROOT))], which
      raises [ValueError] for a path outside [ROOT];
    - [urlopen_read url] is the text of [request.urlopen(url).read()]
      decoded as utf-8-sig: [Raise RuntimeError] stands for the [URLError]
      that [read_csv_rows_from_url] re-raises as a [RuntimeError], any other
      exception is one that the function lets through;
    - [open_read p] is the text of the file opened with utf-8-sig, or the
      exception of the open or of the decoding;
    - [utcnow] is [datetime.utcnow().isoformat(timespec="seconds")];
    - [writable p] tells whether the parent directory of [p] can be made
      and [p] opened for writing. *)
Record World : Type := mkWorld {
  relative_to_root : str -> outcome str;
  urlopen_read : str -> outcome str;
  open_read : str -> outcome str;
  utcnow : str;
  writable : str -> bool
}.

Definition read_csv_rows_from_path (w : World) (path : str) : outcome (list RawRow) :=
  text <- open_read w path ;;
  _parse_csv_lines (keep_lines (file_lines text)).

Definition read_csv_rows_from_url (w : World) (url : str) : outcome (list RawRow) :=
  text <- urlopen_read w url ;;
  _parse_csv_lines (keep_lines (splitlines text)).

(** ** The output document *)

Local Unset Elimination Schemes.
Inductive json : Type :=
| JStr (s : str)
| JInt (n : nat)
| JArr (items : list json)
| JObj (members : list (str * json)).
Local Set Elimination Schemes.

(** What is written to the output path: the lines of a JSONL file, or the
    one value of a JSON file. *)
Inductive document : Type :=
| JsonlFile (lines : list json)
| JsonFile (value : json).

Definition entry_json (e : Entry) : json :=
  JObj (map (fun kv => (fst kv, JStr (snd kv))) e).

(** The entries kept by the loop [for row in rows]: an entry that is
    [None] or an empty dict is not appended. *)
Fixpoint collect_entries (name : str) (rows : list RawRow) (entries : list Entry)
  : outcome (list Entry) :=
  match rows with
  | [] => Ret entries
  | row :: rest =>
      entry <- normalize_vocab_entry name row ;;
      match entry with
      | Some (kv :: e) => collect_entries name rest (entries ++ [kv :: e])
      | _ => collect_entries name rest entries
      end
  end.

(** The result of a call: what it returns or raises, and the document it
    wrote to [output_path], if it wrote one. *)
Record run : Type := mkRun {
  returned : outcome nat;
  written : option document
}.

Definition raises (e : exn) : run := mkRun (Raise e) None.

(** ** convert_vocab *)

Definition convert_vocab (w : World) (name : str) (csv_source : str)
  (output_path : str) (output_format : str) (source_is_url : bool) : run :=
  match (if source_is_url then Ret csv_source else relative_to_root w csv_source) with
  | Raise e => raises e
  | Ret source_desc =>
  match dict_get str_eqb VOCABS name with
  | None => raises KeyError
  | Some type =>
  let metadata : @dict str json :=
    [ (lit "source", JStr source_desc);
      (lit "generated", JStr (utcnow w ++ lit "Z"));
      (lit "format", JStr output_format);
      (lit "type", JStr type);
      (lit "name", JStr name) ] in
  match (if source_is_url then read_csv_rows_from_url w csv_source
         else read_csv_rows_from_path w csv_source) with
  | Raise RuntimeError => mkRun (Ret 0) None
  | Raise e => raises e
  | Ret rows =>
  match collect_entries name rows [] with
  | Raise e => raises e
  | Ret entries =>
  let metadata := dict_set str_eqb metadata (lit "count") (JInt (length entries)) in
  if negb (writable w output_path) then raises OSError
  else if str_eqb output_format (lit "jsonl") then
    mkRun (Ret (length entries))
          (Some (JsonlFile (JObj metadata :: map entry_json entries)))
  else
    let out_obj := metadata in
    let out_obj := dict_set str_eqb out_obj (lit "entries")
                     (JArr (map entry_json entries)) in
    mkRun (Ret (length entries)) (Some (JsonFile (JObj out_obj)))
  end end end end.

(** ** main *)

(** The parsed command line. *)
Record Args : Type := mkArgs {
  arg_remote_base : str;
  arg_local : bool;
  arg_format : str;
  arg_dst : str
}.

(** Where [main] runs: the world of the conversions, and
    - [SRC], the directory of the local CSV files;
    - [joinpath d f], the path [d / f];
    - [path_exists p], [p.exists()];
    - [mkdir_ok d], whether [d.mkdir(parents=True, exist_ok=True)]
      succeeds. *)
Record Site : Type := mkSite {
  site_world : World;
  SRC : str;
  joinpath : str -> str -> str;
  path_exists : str -> bool;
  mkdir_ok : str -> bool
}.

(** The output files, by path. *)
Definition Files : Type := @dict str document.

(** The file system after a call of [convert_vocab] on [path]. *)
Definition store (fs : Files) (path : str) (r : run) : Files :=
  match written r with
  | Some d => dict_set str_eqb fs path d
  | None => fs
  end.

(** [None if args.local else
     (args.remote_base.rstrip("/") if args.remote_base else None)] *)
Definition remote_base_of (args : Args) : option str :=
  if arg_local args then None
  else if truthy (arg_remote_base args)
       then Some (rstrip_chars (lit "/") (arg_remote_base args))
       else None.

(** The conversion of the local file of a vocabulary. *)
Definition convert_local (s : Site) (args : Args) (name : str) (fs : Files)
  : outcome nat * Files :=
  let local_csv := joinpath s (SRC s) (name ++ lit ".csv") in
  let out := joinpath s (arg_dst args) (name ++ lit "." ++ arg_format args) in
  let r := convert_vocab (site_world s) name local_csv out (arg_format args) false in
  (returned r, store fs out r).

(** The body of the loop of [main] for one vocabulary: the count it
    reports, or the exception that leaves [main], and the files after
    it. *)
Definition convert_named (s : Site) (args : Args) (remote_base : option str)
  (name : str) (fs : Files) : outcome nat * Files :=
  let local_csv := joinpath s (SRC s) (name ++ lit ".csv") in
  let out := joinpath s (arg_dst args) (name ++ lit "." ++ arg_format args) in
  (* the handler of [except Exception] *)
  let handler (fs : Files) :=
    if path_exists s local_csv then convert_local s args name fs
    else (Ret 0, fs) in
  match remote_base with
  | Some (c :: b) =>
      let csv_url := (c :: b) ++ lit "/" ++ name ++ lit ".csv" in
      let r := convert_vocab (site_world s) name csv_url out (arg_format args) true in
      let fs1 := store fs out r in
      match returned r with
      | Ret 0 =>
          if path_exists s local_csv then
            match convert_local s args name fs1 with
            | (Ret count, fs2) => (Ret count, fs2)
            | (Raise _, fs2) => handler fs2
            end
          else (Ret 0, fs1)
      | Ret count => (Ret count, fs1)
      | Raise _ => handler fs1
      end
  | _ =>
      if negb (path_exists s local_csv) then (Ret 0, fs)
      else convert_local s args name fs
  end.

(** What a run of [main] leaves: the total it prints at the end or the
    exception that ends it, the counts it reported, one per vocabulary
    line printed, and the output files. *)
Record Outcome : Type := mkOutcome {
  finished : outcome nat;
  reports : list (str * nat);
  outputs : Files
}.

(** [for name in VOCABS.keys()] *)
Fixpoint main_loop (s : Site) (args : Args) (remote_base : option str)
  (names : list str) (total : nat) (printed : list (str * nat)) (fs : Files)
  : Outcome :=
  match names with
  | [] => mkOutcome (Ret total) printed fs
  | name :: rest =>
      match convert_named s args remote_base name fs with
      | (Ret count, fs') =>
          main_loop s args remote_base rest (total + count)
                    (printed ++ [(name, count)]) fs'
      | (Raise e, fs') => mkOutcome (Raise e) printed fs'
      end
  end.

(** [main], on the output files [fs] that exist before it. *)
Definition main (s : Site) (args : Args) (fs : Files) : Outcome :=
  let remote_base := remote_base_of args in
  if negb (mkdir_ok s (arg_dst args)) then mkOutcome (Raise OSError) [] fs
  else main_loop s args remote_base (dict_keys VOCABS) 0 [] fs.

(** ** What the specification says, in its own words *)

Definition is_sep (c : ascii) : bool := Ascii.eqb c "/" || Ascii.eqb c "#".

(** The substring after the last [/] or [#], whichever occurs later. *)
Fixpoint after_last_sep (u : str) : str :=
  match u with
  | [] => []
  | c :: t =>
      if existsb is_sep t then after_last_sep t
      else if is_sep c then t else u
  end.

(** Strip a trailing [/] or [#]: one character. *)
Definition strip_trailing_sep (u : str) : str :=
  match rev u with
  | c :: r => if is_sep c then rev r else u
  | [] => []
  end.

(** The label derivation as the specification words it. *)
Definition claimed_label (uri : str) : str :=
  strip (replace "-" " " (replace "_" " " (after_last_sep (strip_trailing_sep uri)))).

(** The label derivation of the code: the URI is trimmed first, and every
    trailing [/] and [#] goes. *)
Definition derived_label (uri : str) : str :=
  strip (replace "-" " " (replace "_" " "
           (after_last_sep (rstrip_chars (lit "/#") (strip uri))))).

(** The cell that a row gives for a field name, matched without regard to
    case: the cell of the last item whose key, lowered and trimmed, is the
    name. *)
Fixpoint lookup_ci (row : RawRow) (name : str) : option cell :=
  match row with
  | [] => None
  | (k, v) :: t =>
      match lookup_ci t name with
      | Some x => Some x
      | None =>
          match k with
          | Some k' => if str_eqb (strip (lower k')) name then Some v else None
          | None => None
          end
      end
  end.

(** The text of a cell: trimmed; an absent cell reads as empty. *)
Definition text_of (v : cell) : str :=
  match v with
  | VStr s => strip s
  | _ => []
  end.

Fixpoint first_nonempty (l : list str) : str :=
  match l with
  | [] => []
  | x :: t => if truthy x then x else first_nonempty t
  end.

(** The value resolved for a semantic field: the first non-empty one among
    the candidate names, in their order of priority. *)
Definition resolved (row : RawRow) (candidates : list str) : str :=
  first_nonempty
    (map (fun name => match lookup_ci row name with
                      | Some v => text_of v
                      | None => []
                      end) candidates).

(** A row whose keys are all column names and whose cells are strings or
    absent: no [restkey] item. *)
Definition str_row (row : RawRow) : bool :=
  forallb (fun kv => match kv with
                     | (Some _, VList (_ :: _)) => false
                     | (Some _, _) => true
                     | (None, _) => false
                     end) row.

(** The rows that [convert_vocab] reads from its source. *)
Definition read_rows (w : World) (csv_source : str) (source_is_url : bool)
  : outcome (list RawRow) :=
  if source_is_url then read_csv_rows_from_url w csv_source
  else read_csv_rows_from_path w csv_source.

(** The entries that the rows normalize to, rows without an entry dropped. *)
Definition emitted (name : str) (rows : list RawRow) : list Entry :=
  flat_map (fun row => match normalize_vocab_entry name row with
                       | Ret (Some e) => [e]
                       | _ => []
                       end) rows.

(** The metadata envelope of a written document: the first line of a JSONL
    file, the object of a JSON file. *)
Definition doc_metadata (d : document) : option (@dict str json) :=
  match d with
  | JsonlFile (JObj m :: _) => Some m
  | JsonFile (JObj m) => Some m
  | _ => None
  end.

Definition doc_count (d : document) : option json :=
  match doc_metadata d with
  | Some m => dict_get str_eqb m (lit "count")
  | None => None
  end.

(** The entry records serialized in a written document: the lines after
    the first of a JSONL file, the [entries] array of a JSON file. *)
Definition doc_entries (d : document) : option (list json) :=
  match d with
  | JsonlFile (_ :: es) => Some es
  | JsonFile (JObj m) =>
      match dict_get str_eqb m (lit "entries") with
      | Some (JArr es) => Some es
      | _ => None
      end
  | _ => None
  end.

(** The envelope of a run that found [n] entries. *)
Definition envelope (source_desc generated format type name : str) (n : nat)
  : @dict str json :=
  [ (lit "source", JStr source_desc);
    (lit "generated", JStr generated);
    (lit "format", JStr format);
    (lit "type", JStr type);
    (lit "name", JStr name);
    (lit "count", JInt n) ].

(** A line without its terminator: the trailing CR and LF dropped. *)
Definition chomp (line : str) : str := rstrip_chars [CR; LF] line.

(** A line that the reader cuts at its commas and nowhere else: no quote
    character, no CR or LF but at its end, and not longer than a field may
    be. *)
Definition plain_char (c : ascii) : bool :=
  negb (Ascii.eqb c DQUOTE) && negb (is_crlf c).

Definition plain_line (line : str) : bool :=
  forallb plain_char (chomp line)
  && (N.of_nat (length line) <=? field_limit)%N.

(** The cells of a plain line: the pieces between its commas; a line that
    is empty has none. *)
Definition cells_of (line : str) : list str :=
  match chomp line with
  | [] => []
  | body => split "," body
  end.

(** The row of the no-header path for one record: the names [col0],
    [col1], ... zipped to the cells of the record, padded to [n] cells with
    empty strings. *)
Definition positional_row (n : nat) (record : list str) : RawRow :=
  combine (map Some (map col (seq 0 n)))
          (map VStr (record ++ repeat [] (n - length record))).

Definition positional_rows (records : list (list str)) : list RawRow :=
  map (positional_row (max_len_of records)) records.

(** The rows of the header path: one for each record that is not [[]]. *)
Definition named_rows (fieldnames : list str) (records : list (list str))
  : list RawRow :=
  map (dict_row fieldnames)
      (filter (fun row => negb (is_blank_record row)) records).

(** The field names zipped to the cells of a record that is not longer
    than the header, the missing cells absent. *)
Definition padded_pairs (fieldnames : list str) (record : list str)
  : list (key * cell) :=
  combine (map Some fieldnames)
          (map VStr record ++ repeat VNone (length fieldnames - length record)).

(** The open field joined to the first piece of what follows. *)
Definition prepend (p : str) (pieces : list str) : list str :=
  match pieces with
  | [] => [p]
  | h :: t => (p ++ h) :: t
  end.

Definition in_record (r : Reader) : Prop :=
  state r = START_FIELD \/ state r = IN_FIELD.

(** The world of a local run whose CSV file cannot be opened. *)
Definition missing_file_world : World :=
  mkWorld (fun p => Ret p) (fun _ => Raise RuntimeError)
          (fun _ => Raise OSError) (lit "2024-01-01T00:00:00") (fun _ => true).

(** ** Sample inputs *)

(** A local run over a file with a header, one full row and one row
    without a URI. *)
Definition sample_csv : str :=
  lit "uri,label" ++ [LF]
  ++ lit "http://example.org/Foo,My Label" ++ [LF]
  ++ lit ",no uri" ++ [LF].

Definition sample_world : World :=
  mkWorld (fun p => Ret p) (fun _ => Raise RuntimeError)
          (fun _ => Ret sample_csv) (lit "2024-01-01T00:00:00") (fun _ => true).

(** A local run over a file of comments and blank lines. *)
Definition comments_csv : str :=
  lit "# vocabulary" ++ [LF] ++ [LF] ++ lit "   # indented comment" ++ [CR; LF].

Definition comments_world : World :=
  mkWorld (fun p => Ret p) (fun _ => Raise RuntimeError)
          (fun _ => Ret comments_csv) (lit "2024-01-01T00:00:00") (fun _ => true).

(** A remote run whose fetch fails with a [URLError]. *)
Definition offline_world : World :=
  mkWorld (fun p => Ret p) (fun _ => Raise RuntimeError)
          (fun _ => Raise OSError) (lit "2024-01-01T00:00:00") (fun _ => true).

Definition sample_uri_row : RawRow :=
  [ (Some (lit "URI"), VStr (lit "http://example.org/Foo"));
    (Some (lit " Label "), VStr (lit " My Label "));
    (Some (lit "equivalent_uri"), VNone) ].

Definition sample_license_row : RawRow :=
  [ (Some (lit "authority_uri"), VStr []);
    (Some (lit "code"), VStr (lit "MIT"));
    (Some (lit "url"), VNone) ].

(** A character that a derived label never holds. *)
Definition label_char (c : ascii) : bool :=
  negb (is_sep c) && negb (Ascii.eqb c "_") && negb (Ascii.eqb c "-").

(** A string without surrounding whitespace. *)
Definition trimmed (s : str) : Prop := strip s = s.

(** The key of a row as the Entry Normalizer reads it. *)
Definition key_norm (k : key) : key :=
  option_map (fun name => strip (lower name)) k.

(** A licenses row with an authority only. *)
Definition authority_only_row : RawRow :=
  [ (Some (lit "authority_uri"), VStr (lit "http://example.org/licenses/_"));
    (Some (lit "code"), VNone) ].

(** A dict whose values all have no surrounding whitespace. *)
Definition trimmed_values (d : @dict str str) : Prop :=
  forall k v, In (k, v) d -> trimmed v.

(** The site with another answer to every fetch. *)
Definition with_fetch (s : Site) (fetch : str -> outcome str) : Site :=
  let w := site_world s in
  mkSite (mkWorld (relative_to_root w) fetch (open_read w) (utcnow w) (writable w))
         (SRC s) (joinpath s) (path_exists s) (mkdir_ok s).

(** A site without network, with the sample file as every local CSV. *)
Definition sample_site : Site :=
  mkSite sample_world (lit "docs/vocabularies")
         (fun d f => d ++ lit "/" ++ f) (fun _ => true) (fun _ => true).


Definition remote_args : Args :=
  mkArgs (lit "https://example.org/vocabularies/") false (lit "jsonl")
         (lit "public/data").

Definition local_args : Args :=
  mkArgs (lit "https://example.org/vocabularies/") true (lit "jsonl")
         (lit "public/data").

(** The rows that the Row Parser builds from the cells of plain lines. *)
Definition rows_of_cells (header : bool) (cells : list (list str)) : list RawRow :=
  if header then
    match cells with
    | [] => []
    | fieldnames :: data => named_rows fieldnames data
    end
  else positional_rows cells.

(** A character that ends a line for [str.splitlines] only if it ends one
    for a file too: not one of VT, FF, FS, GS, RS and NEL. *)
Definition tame_char (c : ascii) : bool := negb (is_linebreak c) || is_crlf c.

(** A text with a comment, a header and two rows, with mixed line ends. *)
Definition mixed_csv : str :=
  lit "# access rights" ++ [CR; LF]
  ++ lit "URI,Label" ++ [LF]
  ++ lit "http://example.org/public,Public" ++ [CR; LF]
  ++ [LF]
  ++ lit "http://example.org/restricted" ++ [CR].

Definition mixed_world : World :=
  mkWorld (fun p => Ret p) (fun _ => Ret mixed_csv) (fun _ => Ret mixed_csv)
          (lit "2024-01-01T00:00:00") (fun _ => true).

(** A file whose second row has one cell more than the header. *)
Definition surplus_csv : str :=
  lit "uri,label" ++ [LF]
  ++ lit "http://example.org/a,A" ++ [LF]
  ++ lit "http://example.org/b,B,extra" ++ [LF].

Definition surplus_world : World :=
  mkWorld (fun p => Ret p) (fun _ => Raise RuntimeError)
          (fun _ => Ret surplus_csv) (lit "2024-01-01T00:00:00") (fun _ => true).

(** * Properties *)

(** ** Strings *)

Lemma str_eqb_refl (a : str) : str_eqb a a = true.
Proof.
  induction a as [|x a IH]; simpl; [reflexivity|].
  now rewrite Ascii.eqb_refl.
Qed.

Lemma str_eqb_eq (a b : str) : str_eqb a b = true <-> a = b.
Proof.
  split.
  - revert b; induction a as [|x a IH]; intros [|y b] H; simpl in H;
      try discriminate; [reflexivity|].
    apply andb_true_iff in H as [Hx Hr].
    apply Ascii.eqb_eq in Hx. apply IH in Hr. now subst.
  - intros ->. apply str_eqb_refl.
Qed.

Lemma str_eqb_neq (a b : str) : str_eqb a b = false <-> a <> b.
Proof.
  rewrite <- str_eqb_eq. destruct (str_eqb a b); split; congruence.
Qed.

Lemma key_eqb_eq (a b : key) : key_eqb a b = true <-> a = b.
Proof.
  destruct a as [x|], b as [y|]; simpl; try (split; congruence).
  rewrite str_eqb_eq. split; congruence.
Qed.

Lemma truthy_false (s : str) : truthy s = false <-> s = [].
Proof. destruct s; simpl; split; congruence. Qed.

Lemma truthy_true (s : str) : truthy s = true <-> s <> [].
Proof. destruct s; simpl; split; congruence. Qed.

(** *** split *)

Lemma split_not_nil (sep : ascii) (s : str) : split sep s <> [].
Proof.
  destruct s as [|c t]; simpl; [discriminate|].
  destruct (Ascii.eqb c sep); [discriminate|].
  destruct (split sep t); discriminate.
Qed.

Lemma split_absent (sep : ascii) (s : str) :
  existsb (fun c => Ascii.eqb c sep) s = false -> split sep s = [s].
Proof.
  induction s as [|c t IH]; simpl; intros H; [reflexivity|].
  apply orb_false_iff in H as [Hc Ht].
  rewrite Hc, (IH Ht). reflexivity.
Qed.

Lemma split_present (sep : ascii) (s : str) :
  existsb (fun c => Ascii.eqb c sep) s = true ->
  exists h x r, split sep s = h :: x :: r.
Proof.
  induction s as [|c t IH]; simpl; intros H; [discriminate|].
  destruct (Ascii.eqb c sep) eqn:Hc.
  - destruct (split sep t) as [|x r] eqn:Hs.
    + now destruct (split_not_nil sep t).
    + now exists [], x, r.
  - simpl in H. destruct (IH H) as (h & x & r & ->).
    now exists (c :: h), x, r.
Qed.

(** The last piece of a split is what follows the last separator. *)
Lemma last_split_cons (sep c : ascii) (t : str) :
  last_item (split sep (c :: t)) =
  if existsb (fun x => Ascii.eqb x sep) t then last_item (split sep t)
  else if Ascii.eqb c sep then t else c :: t.
Proof.
  unfold last_item. simpl.
  destruct (existsb (fun x => Ascii.eqb x sep) t) eqn:Ht.
  - destruct (split_present sep t Ht) as (h & x & r & ->).
    destruct (Ascii.eqb c sep); reflexivity.
  - rewrite (split_absent sep t Ht).
    destruct (Ascii.eqb c sep); reflexivity.
Qed.

Lemma last_split_absent (sep : ascii) (s : str) :
  existsb (fun c => Ascii.eqb c sep) s = false -> last_item (split sep s) = s.
Proof. intros H. now rewrite (split_absent sep s H). Qed.

Lemma existsb_is_sep (s : str) :
  existsb is_sep s =
  existsb (fun c => Ascii.eqb c "/") s || existsb (fun c => Ascii.eqb c "#") s.
Proof.
  induction s as [|c t IH]; simpl; [reflexivity|].
  rewrite IH. unfold is_sep.
  destruct (Ascii.eqb c "/"), (Ascii.eqb c "#"),
    (existsb (fun c => Ascii.eqb c "/") t),
    (existsb (fun c => Ascii.eqb c "#") t); reflexivity.
Qed.

Lemma last_segment_after_last_sep (u : str) :
  last_item (split "#" (last_item (split "/" u))) = after_last_sep u.
Proof.
  induction u as [|c t IH]; [reflexivity|].
  rewrite (last_split_cons "/" c t).
  cbn [after_last_sep]. rewrite existsb_is_sep. unfold is_sep.
  destruct (existsb (fun x => Ascii.eqb x "/") t) eqn:Hslash; cbn [orb].
  - exact IH.
  - rewrite (last_split_absent "/" t Hslash) in IH.
    destruct (Ascii.eqb c "/") eqn:Hc; cbn [orb].
    + destruct (existsb (fun x => Ascii.eqb x "#") t) eqn:Hhash.
      * exact IH.
      * now apply last_split_absent.
    + rewrite (last_split_cons "#" c t).
      destruct (existsb (fun x => Ascii.eqb x "#") t); [exact IH|].
      destruct (Ascii.eqb c "#"); reflexivity.
Qed.

Lemma slug_label_from_uri_derived (uri : str) :
  slug_label_from_uri uri = derived_label uri.
Proof.
  unfold slug_label_from_uri, derived_label.
  destruct uri as [|c t]; [reflexivity|].
  cbn [truthy negb]. now rewrite last_segment_after_last_sep.
Qed.

(** C5, as amended.  For every URI string, [slug_label_from_uri] gives the
    empty string for the empty URI and otherwise trims the URI, strips
    every trailing [/] and [#], takes the substring after the last [/] or
    [#] (whichever occurs later), replaces [_] and [-] with spaces and
    trims; [http://example.org/some_thing/] yields [some thing]. *)
Theorem slug_label_from_uri_derivation :
  (forall uri, slug_label_from_uri uri = derived_label uri)
  /\ slug_label_from_uri (lit "http://example.org/some_thing/") = lit "some thing".
Proof.
  split; [|reflexivity].
  intros uri. unfold slug_label_from_uri, derived_label.
  destruct uri as [|c t]; [reflexivity|].
  cbn [truthy negb]. now rewrite last_segment_after_last_sep.
Qed.

(** C5, as the specification words it, fails: of two trailing slashes the
    code strips both, where stripping one leaves an empty last segment. *)
Lemma slug_label_from_uri_not_as_claimed :
  ~ (forall uri, slug_label_from_uri uri = claimed_label uri).
Proof.
  intros H. specialize (H (lit "http://example.org/a//")).
  vm_compute in H. discriminate H.
Qed.

(** The code also trims the URI before it looks for the trailing
    separator, which the wording does not. *)
Lemma slug_label_from_uri_trims_first :
  slug_label_from_uri (lit "http://example.org/a/ ") = lit "a"
  /\ claimed_label (lit "http://example.org/a/ ") = [].
Proof. split; reflexivity. Qed.

(** ** Dicts *)

Section DictFacts.
Context {K V : Type} (keqb : K -> K -> bool).
Hypothesis keqb_eq : forall a b, keqb a b = true <-> a = b.

Lemma keqb_refl (a : K) : keqb a a = true.
Proof. now apply keqb_eq. Qed.

Lemma keqb_neq (a b : K) : a <> b -> keqb a b = false.
Proof.
  intros H. destruct (keqb a b) eqn:E; [|reflexivity].
  now apply keqb_eq in E.
Qed.

Lemma dict_get_set_same (d : @dict K V) (k : K) (v : V) :
  dict_get keqb (dict_set keqb d k v) k = Some v.
Proof.
  induction d as [|[k' v'] t IH]; simpl.
  - now rewrite keqb_refl.
  - destruct (keqb k' k) eqn:E; simpl; rewrite E; [reflexivity|exact IH].
Qed.

Lemma dict_get_set_other (d : @dict K V) (k k' : K) (v : V) :
  k <> k' -> dict_get keqb (dict_set keqb d k v) k' = dict_get keqb d k'.
Proof.
  intros Hne. induction d as [|[k0 v0] t IH]; simpl.
  - now rewrite (keqb_neq _ _ Hne).
  - destruct (keqb k0 k) eqn:E; simpl.
    + apply keqb_eq in E. subst k0. now rewrite (keqb_neq _ _ Hne).
    + now rewrite IH.
Qed.

Lemma dict_get_not_in (d : @dict K V) (k : K) :
  ~ In k (dict_keys d) -> dict_get keqb d k = None.
Proof.
  induction d as [|[k0 v0] t IH]; simpl; intros H; [reflexivity|].
  rewrite keqb_neq by tauto. apply IH. tauto.
Qed.

Lemma dict_set_not_in (d : @dict K V) (k : K) (v : V) :
  ~ In k (dict_keys d) -> dict_set keqb d k v = d ++ [(k, v)].
Proof.
  induction d as [|[k0 v0] t IH]; simpl; intros H; [reflexivity|].
  rewrite keqb_neq by tauto. rewrite IH by tauto. reflexivity.
Qed.

Lemma dict_keys_set_in (d : @dict K V) (k : K) (v : V) :
  In k (dict_keys d) -> dict_keys (dict_set keqb d k v) = dict_keys d.
Proof.
  induction d as [|[k0 v0] t IH]; simpl; intros H; [contradiction|].
  destruct (keqb k0 k) eqn:E; simpl; [reflexivity|].
  f_equal. apply IH. destruct H as [H|H]; [|exact H].
  subst k0. now rewrite keqb_refl in E.
Qed.

Lemma dict_update_app (d : @dict K V) (a b : list (K * V)) :
  dict_update keqb d (a ++ b) = dict_update keqb (dict_update keqb d a) b.
Proof.
  revert d; induction a as [|[k v] a IH]; intros d; simpl; [reflexivity|].
  apply IH.
Qed.

(** Pairs with distinct new keys are appended as they are. *)
Lemma dict_update_fresh (d : @dict K V) (pairs : list (K * V)) :
  NoDup (map fst pairs) ->
  (forall k, In k (map fst pairs) -> ~ In k (dict_keys d)) ->
  dict_update keqb d pairs = d ++ pairs.
Proof.
  revert d; induction pairs as [|[k v] t IH]; intros d Hnd Hfresh; simpl.
  - now rewrite app_nil_r.
  - simpl in Hnd. inversion Hnd as [|? ? Hk Ht]; subst.
    rewrite dict_set_not_in by (apply Hfresh; now left).
    rewrite IH; [now rewrite <- app_assoc| exact Ht |].
    intros k' Hin. unfold dict_keys. rewrite map_app, in_app_iff. simpl.
    intros [H|[H|[]]].
    + apply (Hfresh k'); [now right|exact H].
    + now subst k'.
Qed.

Lemma dict_of_nodup (pairs : list (K * V)) :
  NoDup (map fst pairs) -> dict_of keqb pairs = pairs.
Proof.
  intros H. unfold dict_of. rewrite dict_update_fresh; auto.
Qed.

(** The keys after an update depend on the keys only. *)
Lemma dict_keys_update (d d' : @dict K V) (p p' : list (K * V)) :
  dict_keys d = dict_keys d' -> map fst p = map fst p' ->
  dict_keys (dict_update keqb d p) = dict_keys (dict_update keqb d' p').
Proof.
  assert (Hset : forall (a b : @dict K V) k v v',
             dict_keys a = dict_keys b ->
             dict_keys (dict_set keqb a k v) = dict_keys (dict_set keqb b k v')).
  { induction a as [|[k0 v0] a IH]; intros [|[k1 v1] b] k v v' H;
      simpl in *; try discriminate; [reflexivity|].
    injection H as -> Hr.
    destruct (keqb k1 k); simpl; f_equal; auto. }
  revert d d' p'; induction p as [|[k v] p IH]; intros d d' [|[k' v'] p'] Hd Hp;
    simpl in *; try discriminate; [exact Hd|].
  injection Hp as -> Hp. apply IH; [|exact Hp]. now apply Hset.
Qed.
End DictFacts.

(** ** The Entry Normalizer *)

Lemma clean_value_text (v : cell) (s : str) :
  clean_value v = Ret s -> s = text_of v.
Proof.
  destruct v as [|x|[|y l]]; cbn [clean_value text_of]; try congruence.
  destruct x; cbn [truthy]; intros [= <-]; reflexivity.
Qed.

(** The dict comprehension succeeds exactly on the rows without a
    [restkey] item. *)
Lemma lowered_keys_str_row (row : RawRow) (acc : @dict str str) :
  str_row row = true -> exists keys, lowered_keys acc row = Ret keys.
Proof.
  revert acc; induction row as [|[k v] t IH]; intros acc H; simpl in *.
  - now exists acc.
  - apply andb_true_iff in H as [Hkv Ht].
    destruct k as [name|]; [|discriminate].
    destruct v as [|x|[|y l]]; try discriminate; simpl;
      try destruct (truthy x); apply IH; exact Ht.
Qed.

Lemma lowered_keys_raises (row : RawRow) (acc : @dict str str) :
  str_row row = false -> lowered_keys acc row = Raise AttributeError.
Proof.
  revert acc; induction row as [|[k v] t IH]; intros acc H; simpl in *.
  - discriminate.
  - destruct k as [name|]; [|reflexivity].
    destruct v as [|x|[|y l]]; simpl in *; try reflexivity;
      try destruct (truthy x); apply IH; exact H.
Qed.

(** Case-insensitive matching: a lookup in the lowered dict is the lookup
    of the name in the row, the last matching column winning. *)
Lemma lowered_keys_get (row : RawRow) (acc keys : @dict str str) :
  lowered_keys acc row = Ret keys ->
  forall name,
    dict_get str_eqb keys name =
    match lookup_ci row name with
    | Some v => Some (text_of v)
    | None => dict_get str_eqb acc name
    end.
Proof.
  revert acc; induction row as [|[k v] t IH]; intros acc H name; simpl in *.
  - now injection H as ->.
  - destruct k as [k'|]; [|discriminate].
    destruct (clean_value v) as [v'|e] eqn:Hv; simpl in H; [|discriminate].
    apply clean_value_text in Hv. subst v'.
    rewrite (IH _ H name).
    destruct (lookup_ci t name); [reflexivity|].
    destruct (str_eqb (strip (lower k')) name) eqn:E.
    + apply str_eqb_eq in E. subst name.
      apply (dict_get_set_same str_eqb str_eqb_eq).
    + apply str_eqb_neq in E.
      now apply (dict_get_set_other str_eqb str_eqb_eq).
Qed.

Lemma first_of_resolved (row : RawRow) (keys : @dict str str) (a b c : str) :
  lowered_keys [] row = Ret keys ->
  first_of keys a b c = resolved row [a; b; c].
Proof.
  intros H. unfold first_of, get_or, get_default, resolved. simpl.
  rewrite !(lowered_keys_get row [] keys H). simpl.
  destruct (lookup_ci row a) as [va|]; destruct (lookup_ci row b) as [vb|];
    destruct (lookup_ci row c) as [vc|];
    try destruct (text_of va); try destruct (text_of vb);
    try destruct (text_of vc); reflexivity.
Qed.

(** On a row of named columns, for a vocabulary that is not [licenses],
    [normalize_vocab_entry] returns no entry exactly when the resolved uri
    (the first non-empty of [uri], [url], [col0], matched without regard
    to case) is empty, and otherwise an entry with that uri, with the
    label of the row or, when that is empty, the label derived from the
    URI, and with [equivalentUri] present exactly when it is not empty. *)
Theorem uri_label_entry (vocab_name : str) (row : RawRow) :
  str_eqb vocab_name (lit "licenses") = false ->
  str_row row = true ->
  let uri := resolved row [lit "uri"; lit "url"; lit "col0"] in
  let label := resolved row [lit "label"; lit "name"; lit "col1"] in
  let equiv := resolved row [lit "equivalent_uri"; lit "equivalent"; lit "col2"] in
  (normalize_vocab_entry vocab_name row = Ret None <-> uri = [])
  /\ (uri <> [] ->
      exists entry,
        normalize_vocab_entry vocab_name row = Ret (Some entry)
        /\ dict_get str_eqb entry (lit "uri") = Some uri
        /\ dict_get str_eqb entry (lit "label")
           = Some (if truthy label then label else derived_label uri)
        /\ dict_get str_eqb entry (lit "equivalentUri")
           = (if truthy equiv then Some equiv else None)
        /\ forall k, In k (dict_keys entry) ->
                     In k [lit "uri"; lit "label"; lit "equivalentUri"]).
Proof.
  intros Hname Hrow uri label equiv.
  destruct (lowered_keys_str_row row [] Hrow) as [keys Hkeys].
  unfold normalize_vocab_entry. rewrite Hname, Hkeys. cbn [bind].
  rewrite !(first_of_resolved row keys _ _ _ Hkeys).
  fold uri label equiv. rewrite <- (slug_label_from_uri_derived uri).
  destruct (truthy uri) eqn:Huri; cbn [negb].
  - apply truthy_true in Huri. split.
    + split; [discriminate|contradiction].
    + intros _. eexists. split; [reflexivity|].
      destruct (truthy equiv); repeat split; try reflexivity;
        cbn; intros k Hk; tauto.
  - apply truthy_false in Huri. split.
    + split; auto.
    + contradiction.
Qed.

(** On a row of named columns, for the [licenses] vocabulary,
    [normalize_vocab_entry] returns no entry exactly when the resolved
    authority, code and url are all empty; otherwise it returns an entry
    whose label is the code if that is not empty, else the label derived
    from the authority or, failing that, from the url, else [Unknown], and
    whose [uri] (the authority), [code] and [url] are present exactly when
    their value is not empty. *)
Theorem licenses_entry (row : RawRow) :
  str_row row = true ->
  let authority := resolved row [lit "authority_uri"; lit "authority"; lit "col0"] in
  let code := resolved row [lit "code"; lit "id"; lit "col1"] in
  let url := resolved row [lit "url"; lit "license_url"; lit "col2"] in
  (normalize_vocab_entry (lit "licenses") row = Ret None
   <-> authority = [] /\ code = [] /\ url = [])
  /\ (~ (authority = [] /\ code = [] /\ url = []) ->
      exists entry,
        normalize_vocab_entry (lit "licenses") row = Ret (Some entry)
        /\ dict_get str_eqb entry (lit "label")
           = Some (if truthy code then code
                   else
                     let derived :=
                       derived_label (if truthy authority then authority else url) in
                     if truthy derived then derived else lit "Unknown")
        /\ dict_get str_eqb entry (lit "uri")
           = (if truthy authority then Some authority else None)
        /\ dict_get str_eqb entry (lit "code")
           = (if truthy code then Some code else None)
        /\ dict_get str_eqb entry (lit "url")
           = (if truthy url then Some url else None)
        /\ forall k, In k (dict_keys entry) ->
                     In k [lit "uri"; lit "code"; lit "url"; lit "label"]).
Proof.
  intros Hrow authority code url.
  destruct (lowered_keys_str_row row [] Hrow) as [keys Hkeys].
  unfold normalize_vocab_entry.
  replace (str_eqb (lit "licenses") (lit "licenses")) with true by reflexivity.
  rewrite Hkeys. cbn [bind].
  rewrite !(first_of_resolved row keys _ _ _ Hkeys).
  fold authority code url. clearbody authority code url. unfold str_or.
  rewrite <- (slug_label_from_uri_derived (if truthy authority then authority else url)).
  destruct authority as [|a0 a], code as [|c0 c], url as [|u0 u];
    cbn [truthy negb].
  1: { split; [split; [intros _; repeat split; reflexivity | reflexivity]|].
       intros H; exfalso; apply H; repeat split; reflexivity. }
  all: split; [split; [discriminate | intros (? & ? & ?); discriminate]|].
  all: intros _; eexists; split; [reflexivity|].
  all: repeat split; try reflexivity; try (cbn; intros k Hk; tauto).
Qed.

Lemma dict_set_not_nil {K V : Type} (keqb : K -> K -> bool)
  (d : @dict K V) (k : K) (v : V) : dict_set keqb d k v <> [].
Proof.
  destruct d as [|[k' v'] t]; simpl; [discriminate|].
  destruct (keqb k' k); discriminate.
Qed.

(** An entry that is returned is never the empty dict, so the test
    [if entry] of the converter drops the absent entries only. *)
Lemma normalize_vocab_entry_not_empty (name : str) (row : RawRow) :
  normalize_vocab_entry name row <> Ret (Some []).
Proof.
  unfold normalize_vocab_entry.
  destruct (str_eqb name (lit "licenses"));
    destruct (lowered_keys [] row) as [keys|e]; cbn [bind]; try discriminate.
  - match goal with |- (if ?b then _ else _) <> _ => destruct b end;
      [discriminate|].
    intros H. injection H as H. now apply dict_set_not_nil in H.
  - match goal with |- (if ?b then _ else _) <> _ => destruct b end;
      [discriminate|].
    match goal with |- context [if ?b then dict_set _ _ _ _ else _] => destruct b end;
      intros H; injection H as H;
      first [ now apply dict_set_not_nil in H
            | discriminate H
            | revert H; cbn; discriminate ].
Qed.

Lemma collect_entries_emitted (name : str) (rows : list RawRow) (acc es : list Entry) :
  collect_entries name rows acc = Ret es -> es = acc ++ emitted name rows.
Proof.
  revert acc; induction rows as [|row rest IH]; intros acc H; simpl in *.
  - injection H as <-. now rewrite app_nil_r.
  - pose proof (normalize_vocab_entry_not_empty name row) as Hne.
    destruct (normalize_vocab_entry name row) as [[[|kv e]|]|x]; cbn [bind] in H.
    + now destruct Hne.
    + rewrite (IH _ H). now rewrite <- app_assoc.
    + exact (IH _ H).
    + discriminate.
Qed.

(** C8.  Whenever [convert_vocab] writes a document, in either format, the
    [count] of its metadata envelope is the number of entry records
    serialized in it: the entries of the rows whose normalization gave
    one.  It is also the number returned. *)
Theorem count_is_number_of_entries (w : World)
  (name csv_source output_path output_format : str) (source_is_url : bool)
  (doc : document) :
  written (convert_vocab w name csv_source output_path output_format source_is_url)
  = Some doc ->
  exists rows es,
    read_rows w csv_source source_is_url = Ret rows
    /\ es = map entry_json (emitted name rows)
    /\ doc_entries doc = Some es
    /\ doc_count doc = Some (JInt (length es))
    /\ returned (convert_vocab w name csv_source output_path output_format
                   source_is_url) = Ret (length es).
Proof.
  unfold convert_vocab. fold (read_rows w csv_source source_is_url).
  destruct (if source_is_url then Ret csv_source else relative_to_root w csv_source)
    as [source_desc|e]; [|discriminate].
  destruct (dict_get str_eqb VOCABS name) as [type|]; [|discriminate].
  destruct (read_rows w csv_source source_is_url) as [rows|e];
    [|destruct e; discriminate].
  destruct (collect_entries name rows []) as [entries|e] eqn:Hc; [|discriminate].
  apply collect_entries_emitted in Hc. simpl in Hc. subst entries.
  destruct (writable w output_path); cbn [negb]; [|discriminate].
  exists rows, (map entry_json (emitted name rows)).
  rewrite length_map.
  destruct (str_eqb output_format (lit "jsonl")); cbn [written returned] in *;
    injection H as <-; repeat split; reflexivity.
Qed.

(** ** The Line Filter *)

Lemma keep_lines_all_skipped (lines : list str) :
  forallb skipped lines = true -> keep_lines lines = [].
Proof.
  induction lines as [|l t IH]; simpl; intros H; [reflexivity|].
  apply andb_true_iff in H as [Hl Ht]. rewrite Hl. simpl. now apply IH.
Qed.

Lemma keep_lines_skip (c : str) (lines : list str) :
  skipped c = true -> keep_lines (c :: lines) = keep_lines lines.
Proof. intros H. unfold keep_lines. simpl. now rewrite H. Qed.

Lemma keep_lines_keep (l : str) (lines : list str) :
  skipped l = false -> keep_lines (l :: lines) = l :: keep_lines lines.
Proof. intros H. unfold keep_lines. simpl. now rewrite H. Qed.

(** ** The Vocabulary Converter *)

(** C9.  A source that is read without error and whose lines are all
    comments or blank (an empty source has no line at all) is no error:
    the Row Parser yields no row, and [convert_vocab], for a known
    vocabulary and a destination that can be written, writes the metadata
    envelope with [count] 0 and no entry, and returns 0. *)
Theorem empty_source_envelope (w : World)
  (name csv_source output_path output_format : str) (source_is_url : bool)
  (source_desc type text : str) :
  (if source_is_url then Ret csv_source else relative_to_root w csv_source)
  = Ret source_desc ->
  dict_get str_eqb VOCABS name = Some type ->
  (if source_is_url then urlopen_read w csv_source else open_read w csv_source)
  = Ret text ->
  forallb skipped (if source_is_url then splitlines text else file_lines text)
  = true ->
  writable w output_path = true ->
  let meta := envelope source_desc (utcnow w ++ lit "Z") output_format type name 0 in
  read_rows w csv_source source_is_url = Ret []
  /\ convert_vocab w name csv_source output_path output_format source_is_url
     = mkRun (Ret 0)
         (Some (if str_eqb output_format (lit "jsonl")
                then JsonlFile [JObj meta]
                else JsonFile (JObj (meta ++ [(lit "entries", JArr [])])))).
Proof.
  intros Hdesc Htype Htext Hskip Hw meta.
  assert (Hrows : read_rows w csv_source source_is_url = Ret []).
  { unfold read_rows, read_csv_rows_from_url, read_csv_rows_from_path.
    destruct source_is_url; rewrite Htext; cbn [bind];
      now rewrite (keep_lines_all_skipped _ Hskip). }
  split; [exact Hrows|].
  unfold convert_vocab. fold (read_rows w csv_source source_is_url).
  rewrite Hdesc, Htype, Hrows, Hw. cbn [collect_entries negb length map].
  destruct (str_eqb output_format (lit "jsonl")); reflexivity.
Qed.

(** C10, as amended.  When reading the rows raises, [convert_vocab] writes
    no document, whatever was raised.  With a source description and a
    known vocabulary it returns 0 when what was raised is the
    [RuntimeError] of a failed fetch, and lets any other exception
    through. *)
Theorem read_failure_writes_nothing (w : World)
  (name csv_source output_path output_format : str) (source_is_url : bool)
  (e : exn) :
  read_rows w csv_source source_is_url = Raise e ->
  written (convert_vocab w name csv_source output_path output_format source_is_url)
  = None
  /\ forall source_desc type,
       (if source_is_url then Ret csv_source else relative_to_root w csv_source)
       = Ret source_desc ->
       dict_get str_eqb VOCABS name = Some type ->
       convert_vocab w name csv_source output_path output_format source_is_url
       = match e with
         | RuntimeError => mkRun (Ret 0) None
         | _ => mkRun (Raise e) None
         end.
Proof.
  intros Hread. unfold convert_vocab.
  fold (read_rows w csv_source source_is_url). rewrite Hread.
  split.
  - destruct (if source_is_url then Ret csv_source
              else relative_to_root w csv_source); [|reflexivity].
    destruct (dict_get str_eqb VOCABS name); [|reflexivity].
    destruct e; reflexivity.
  - intros source_desc type -> ->. destruct e; reflexivity.
Qed.

(** C10, as worded, fails: a local file that cannot be opened makes the
    reading step raise, and [convert_vocab] raises too instead of
    returning 0. *)
Lemma read_failure_not_always_zero :
  ~ (forall w name csv_source output_path output_format source_is_url e,
        read_rows w csv_source source_is_url = Raise e ->
        returned (convert_vocab w name csv_source output_path output_format
                    source_is_url) = Ret 0).
Proof.
  intros H.
  specialize (H missing_file_world (lit "licenses") (lit "docs/vocabularies/licenses.csv")
                (lit "public/data/licenses.jsonl") (lit "jsonl") false OSError
                eq_refl).
  vm_compute in H. discriminate H.
Qed.

(** ** The reader on plain lines *)

Lemma rstrip_chars_tail (chars s : str) :
  exists tl,
    s = rstrip_chars chars s ++ tl
    /\ forallb (fun c => existsb (Ascii.eqb c) chars) tl = true.
Proof.
  induction s as [|c t (tl & Ht & Htl)]; simpl.
  - now exists [].
  - destruct (rstrip_chars chars t) as [|x r] eqn:Hr.
    + simpl in Ht. subst tl.
      destruct (existsb (Ascii.eqb c) chars) eqn:Hc.
      * exists (c :: t). simpl. now rewrite Hc, Htl.
      * exists t. now split.
    + exists tl. split; [|exact Htl]. simpl. now rewrite Ht at 1.
Qed.

Lemma chomp_tail (line : str) :
  exists tl, line = chomp line ++ tl /\ forallb is_crlf tl = true.
Proof.
  destruct (rstrip_chars_tail [CR; LF] line) as (tl & H1 & H2).
  exists tl. split; [exact H1|].
  clear H1. induction tl as [|c tl IH]; [reflexivity|].
  simpl in H2 |- *. apply andb_true_iff in H2 as [Hc Htl].
  rewrite (IH Htl), andb_true_r. unfold is_crlf.
  destruct (Ascii.eqb c CR), (Ascii.eqb c LF); auto.
Qed.

Lemma parse_chars_app (r : Reader) (a b : str) :
  parse_chars r (a ++ b) = (r' <- parse_chars r a ;; parse_chars r' b).
Proof.
  revert r; induction a as [|c t IH]; intros r; simpl; [reflexivity|].
  destruct (parse_process_char r (Some c)); simpl; [apply IH|reflexivity].
Qed.

Lemma plain_char_inv (c : ascii) :
  plain_char c = true -> Ascii.eqb c DQUOTE = false /\ is_crlf c = false.
Proof.
  unfold plain_char. intros H. apply andb_true_iff in H as [H1 H2].
  now apply negb_true_iff in H1, H2.
Qed.

Lemma parse_add_char_ok (r : Reader) (c : ascii) :
  (N.of_nat (length (field r)) < field_limit)%N ->
  parse_add_char r c = Ret (mkReader (state r) (fields r) (c :: field r)).
Proof.
  intros H. unfold parse_add_char.
  now apply N.leb_gt in H as ->.
Qed.

(** Inside a record, characters that are neither quote nor line end cut
    the input at the commas. *)
Lemma parse_chars_plain (body : str) (r : Reader) :
  forallb plain_char body = true ->
  in_record r ->
  (N.of_nat (length (field r) + length body) <= field_limit)%N ->
  exists r',
    parse_chars r body = Ret r'
    /\ in_record r'
    /\ fields r' ++ [rev (field r')]
       = fields r ++ prepend (rev (field r)) (split "," body).
Proof.
  revert r; induction body as [|c t IH]; intros r Hplain Hin Hlen.
  - exists r. simpl. rewrite app_nil_r. auto.
  - simpl in Hplain. apply andb_true_iff in Hplain as [Hc Ht].
    destruct (plain_char_inv c Hc) as [Hq Hnl].
    assert (Hadd : parse_add_char r c
                   = Ret (mkReader (state r) (fields r) (c :: field r))).
    { apply parse_add_char_ok. simpl in Hlen. lia. }
    cbn [parse_chars split].
    destruct (Ascii.eqb c ",") eqn:Hcomma.
    + assert (Hstep : parse_process_char r (Some c)
                      = Ret (mkReader START_FIELD (fields r ++ [rev (field r)]) [])).
      { destruct r as [st fs f]. unfold in_record in Hin. cbn [state] in Hin.
        unfold parse_process_char, parse_save_field, set_state.
        cbn [state fields field].
        destruct Hin as [-> | ->]; rewrite Hnl, ?Hq, Hcomma; reflexivity. }
      rewrite Hstep. cbn [bind].
      destruct (IH (mkReader START_FIELD (fields r ++ [rev (field r)]) []))
        as (r' & Hr' & Hin' & Hf); [exact Ht | now left | simpl in *; lia |].
      exists r'. split; [exact Hr'|]. split; [exact Hin'|].
      rewrite Hf. cbn [fields field rev prepend].
      rewrite <- app_assoc. f_equal. cbn [app]. rewrite app_nil_r.
      destruct (split "," t) as [|h x] eqn:Hs; [now destruct (split_not_nil "," t)|].
      reflexivity.
    + assert (Hstep : parse_process_char r (Some c)
                      = Ret (mkReader IN_FIELD (fields r) (c :: field r))).
      { destruct r as [st fs f]. unfold in_record in Hin. cbn [state] in Hin.
        unfold parse_process_char, parse_save_field, set_state.
        cbn [state fields field] in *.
        destruct Hin as [-> | ->]; rewrite Hnl, ?Hq, Hcomma, ?Hadd;
          reflexivity. }
      rewrite Hstep. cbn [bind].
      destruct (IH (mkReader IN_FIELD (fields r) (c :: field r)))
        as (r' & Hr' & Hin' & Hf); [exact Ht | now right | simpl in *; lia |].
      exists r'. split; [exact Hr'|]. split; [exact Hin'|].
      rewrite Hf. cbn [fields field rev]. f_equal.
      destruct (split "," t) as [|h x] eqn:Hs; [now destruct (split_not_nil "," t)|].
      cbn [prepend]. now rewrite <- app_assoc.
Qed.

Lemma parse_chars_eat (tl : str) (r : Reader) :
  forallb is_crlf tl = true -> state r = EAT_CRNL -> parse_chars r tl = Ret r.
Proof.
  induction tl as [|c t IH]; simpl; intros H Hs; [reflexivity|].
  apply andb_true_iff in H as [Hc Ht].
  unfold parse_process_char. rewrite Hs, Hc. cbn [bind]. now apply IH.
Qed.

(** The end of a line closes the record. *)
Lemma parse_line_close (tl : str) (r : Reader) :
  forallb is_crlf tl = true ->
  in_record r ->
  (r' <- parse_chars r tl ;; parse_process_char r' None)
  = Ret (mkReader START_RECORD (fields r ++ [rev (field r)]) []).
Proof.
  intros Htl Hin. destruct r as [st fs f].
  unfold in_record in Hin. cbn [state] in Hin.
  destruct tl as [|c t].
  - cbn [parse_chars bind]. destruct Hin as [-> | ->]; reflexivity.
  - simpl in Htl. apply andb_true_iff in Htl as [Hc Ht].
    cbn [parse_chars].
    assert (Hstep : parse_process_char (mkReader st fs f) (Some c)
                    = Ret (mkReader EAT_CRNL (fs ++ [rev f]) [])).
    { unfold parse_process_char, parse_save_field, set_state.
      cbn [state fields field].
      destruct Hin as [-> | ->]; rewrite Hc; reflexivity. }
    rewrite Hstep. cbn [bind].
    rewrite (parse_chars_eat t (mkReader EAT_CRNL (fs ++ [rev f]) []) Ht eq_refl).
    reflexivity.
Qed.

Lemma prepend_nil (pieces : list str) :
  pieces <> [] -> prepend [] pieces = pieces.
Proof. destruct pieces; [congruence|reflexivity]. Qed.

(** A plain line is one record: its cells. *)
Lemma parse_line_plain (line : str) :
  plain_line line = true ->
  parse_line parse_reset line = Ret (mkReader START_RECORD (cells_of line) []).
Proof.
  unfold plain_line, cells_of. intros H.
  apply andb_true_iff in H as [Hbody Hlen]. apply N.leb_le in Hlen.
  destruct (chomp_tail line) as (tl & Hline & Htl).
  remember (chomp line) as body eqn:Hb. clear Hb. subst line.
  rewrite length_app in Hlen.
  unfold parse_line. destruct body as [|c t].
  - cbn [app]. destruct tl as [|x tl]; [reflexivity|].
    simpl in Htl. apply andb_true_iff in Htl as [Hx Htl].
    cbn [parse_chars]. unfold parse_process_char at 1. cbn [state parse_reset].
    rewrite Hx. cbn [bind].
    rewrite (parse_chars_eat tl (set_state parse_reset EAT_CRNL) Htl eq_refl).
    reflexivity.
  - assert (Hfirst : parse_chars parse_reset ((c :: t) ++ tl)
                     = parse_chars (mkReader START_FIELD [] []) ((c :: t) ++ tl)).
    { cbn [app parse_chars]. f_equal.
      simpl in Hbody. apply andb_true_iff in Hbody as [Hc _].
      destruct (plain_char_inv c Hc) as [_ Hnl].
      unfold parse_process_char. cbn [state parse_reset]. now rewrite Hnl. }
    rewrite Hfirst, parse_chars_app.
    destruct (parse_chars_plain (c :: t) (mkReader START_FIELD [] []))
      as (r' & Hr' & Hin' & Hf); [exact Hbody | now left | cbn [field length] in *; lia |].
    rewrite Hr'. cbn [bind].
    rewrite (parse_line_close tl r' Htl Hin'), Hf.
    cbn [fields field rev app]. now rewrite prepend_nil by apply split_not_nil.
Qed.

Lemma read_records_plain_head (line : str) (rest : list str) :
  plain_line line = true ->
  read_records parse_reset (line :: rest)
  = (rows <- read_records parse_reset rest ;; Ret (cells_of line :: rows)).
Proof.
  intros H. cbn [read_records]. rewrite (parse_line_plain line H). reflexivity.
Qed.

(** On plain lines the reader gives one record per line, in order. *)
Lemma csv_reader_plain (lines : list str) :
  forallb plain_line lines = true -> csv_reader lines = Ret (map cells_of lines).
Proof.
  unfold csv_reader. induction lines as [|l t IH]; intros H; [reflexivity|].
  simpl in H. apply andb_true_iff in H as [Hl Ht].
  rewrite (read_records_plain_head l t Hl), (IH Ht). reflexivity.
Qed.

(** ** The header decision *)

Lemma startswith_rstrip (p s : str) :
  forallb (fun c => negb (isspace c)) p = true ->
  startswith p (rstrip s) = startswith p s.
Proof.
  revert p; induction s as [|c t IH]; intros p Hp; [reflexivity|].
  destruct p as [|a p']; [reflexivity|].
  simpl in Hp. apply andb_true_iff in Hp as [Ha Hp'].
  apply negb_true_iff in Ha.
  specialize (IH p' Hp'). cbn [rstrip].
  destruct (rstrip t) as [|x r] eqn:Hr.
  - destruct (isspace c) eqn:Hc; cbn [startswith].
    + destruct (Ascii.eqb a c) eqn:E; [|reflexivity].
      apply Ascii.eqb_eq in E. congruence.
    + now rewrite IH.
  - cbn [startswith]. now rewrite IH.
Qed.

Lemma contains_rstrip (sub s : str) :
  sub <> [] -> forallb (fun c => negb (isspace c)) sub = true ->
  contains sub (rstrip s) = contains sub s.
Proof.
  intros Hne Hsub. induction s as [|c t IH]; [reflexivity|].
  pose proof (startswith_rstrip sub (c :: t) Hsub) as Hsw.
  cbn [contains]. rewrite <- Hsw, <- IH. cbn [rstrip].
  destruct (rstrip t) as [|x r]; [|reflexivity].
  destruct (isspace c); [|reflexivity].
  destruct sub; [congruence|reflexivity].
Qed.

Lemma contains_lstrip (sub s : str) :
  sub <> [] -> forallb (fun c => negb (isspace c)) sub = true ->
  contains sub (lstrip s) = contains sub s.
Proof.
  intros Hne Hsub. induction s as [|c t IH]; [reflexivity|].
  cbn [lstrip]. destruct (isspace c) eqn:Hc; [|reflexivity].
  rewrite IH. cbn [contains].
  destruct sub as [|a p']; [congruence|].
  simpl in Hsub. apply andb_true_iff in Hsub as [Ha _].
  apply negb_true_iff in Ha. cbn [startswith].
  destruct (Ascii.eqb a c) eqn:E; [|reflexivity].
  apply Ascii.eqb_eq in E. congruence.
Qed.

(** Trimming a line does not change whether it contains [://]. *)
Lemma contains_scheme_strip (l : str) :
  contains (lit "://") (strip l) = contains (lit "://") l.
Proof.
  unfold strip.
  rewrite contains_rstrip, contains_lstrip; try reflexivity; discriminate.
Qed.

Lemma has_header_first_line (l : str) (rest : list str) :
  has_header (l :: rest) = negb (contains (lit "://") l).
Proof. unfold has_header. now rewrite contains_scheme_strip. Qed.

(** ** The no-header path *)

Lemma lit_inj (a b : string) : lit a = lit b -> a = b.
Proof.
  unfold lit. intros H.
  rewrite <- (string_of_list_ascii_of_string a),
          <- (string_of_list_ascii_of_string b).
  now rewrite H.
Qed.

Lemma col_inj (i j : nat) : col i = col j -> i = j.
Proof.
  unfold col. intros H. apply app_inv_head in H. apply lit_inj in H.
  apply Unsigned.to_uint_inj.
  pose proof (NilEmpty.usu (Nat.to_uint i)) as Hi.
  pose proof (NilEmpty.usu (Nat.to_uint j)) as Hj.
  rewrite H in Hi. congruence.
Qed.

Lemma col_names_nodup (n : nat) : NoDup (map Some (map col (seq 0 n))).
Proof.
  apply Finite.Injective_map_NoDup; [intros a b; congruence|].
  apply Finite.Injective_map_NoDup; [exact col_inj|].
  apply seq_NoDup.
Qed.

Lemma in_fst_combine {A B : Type} (a : list A) (b : list B) (x : A) :
  In x (map fst (combine a b)) -> In x a.
Proof.
  revert b; induction a as [|y a IH]; intros [|z b]; simpl; try tauto.
  intros [H|H]; [now left|right; eauto].
Qed.

Lemma nodup_fst_combine {A B : Type} (a : list A) (b : list B) :
  NoDup a -> NoDup (map fst (combine a b)).
Proof.
  revert b; induction a as [|y a IH]; intros [|z b] H; simpl; try constructor.
  - inversion H; subst. intros Hin. now apply in_fst_combine in Hin.
  - inversion H; subst. now apply IH.
Qed.

Lemma dict_of_positional (n : nat) (cells : list cell) :
  dict_of key_eqb (combine (map Some (map col (seq 0 n))) cells)
  = combine (map Some (map col (seq 0 n))) cells.
Proof.
  apply (dict_of_nodup key_eqb key_eqb_eq).
  apply nodup_fst_combine, col_names_nodup.
Qed.

Lemma max_len_of_bound (records : list (list str)) (r : list str) :
  In r records -> length r <= max_len_of records.
Proof.
  induction records as [|x t IH]; simpl; [tauto|].
  intros [->|H]; [lia|]. specialize (IH H). lia.
Qed.

Lemma max_len_of_attained (records : list (list str)) :
  records <> [] -> exists r, In r records /\ length r = max_len_of records.
Proof.
  induction records as [|x t IH]; [congruence|]. intros _.
  change (max_len_of (x :: t)) with (Nat.max (length x) (max_len_of t)).
  destruct t as [|y t'].
  - exists x. simpl. split; [now left|lia].
  - destruct IH as (r & Hin & Hr); [discriminate|].
    destruct (Nat.max_spec (length x) (max_len_of (y :: t'))) as [[_ ->]|[_ ->]].
    + exists r. split; [now right|exact Hr].
    + exists x. split; [now left|reflexivity].
Qed.

Lemma parse_no_header (lines : list str) :
  lines <> [] -> has_header lines = false ->
  _parse_csv_lines lines
  = (records <- csv_reader lines ;; Ret (positional_rows records)).
Proof.
  intros Hne Hh. unfold _parse_csv_lines.
  destruct lines as [|l t]; [congruence|]. rewrite Hh.
  destruct (csv_reader (l :: t)) as [records|e]; cbn [bind]; [|reflexivity].
  destruct records as [|r rs]; [reflexivity|].
  unfold positional_rows. f_equal. apply map_ext. intros a.
  apply dict_of_positional.
Qed.

Lemma parse_with_header (lines : list str) :
  has_header lines = true -> _parse_csv_lines lines = DictReader lines.
Proof.
  intros Hh. unfold _parse_csv_lines.
  destruct lines as [|l t]; [discriminate|]. now rewrite Hh.
Qed.

Lemma DictReader_plain_head (l : str) (rest : list str) :
  plain_line l = true ->
  DictReader (l :: rest)
  = (data <- csv_reader rest ;; Ret (named_rows (cells_of l) data)).
Proof.
  intros Hl. unfold DictReader, csv_reader.
  rewrite (read_records_plain_head l rest Hl).
  destruct (read_records parse_reset rest); reflexivity.
Qed.

(** C3.  For a sequence of retained lines that starts with [l], the
    decision between header and no header depends only on whether [l]
    contains [://]: if it does, every line is data; otherwise the parser
    runs in header mode, where a first line without quotes gives the field
    names and only the following lines give rows.  A comment or blank line
    put before the lines is filtered out before the decision, which it
    does not change. *)
Theorem header_decision (l : str) (rest : list str) :
  has_header (l :: rest) = negb (contains (lit "://") l)
  /\ (contains (lit "://") l = true ->
      _parse_csv_lines (l :: rest)
      = (records <- csv_reader (l :: rest) ;; Ret (positional_rows records)))
  /\ (contains (lit "://") l = false ->
      _parse_csv_lines (l :: rest) = DictReader (l :: rest)
      /\ (plain_line l = true ->
          _parse_csv_lines (l :: rest)
          = (data <- csv_reader rest ;; Ret (named_rows (cells_of l) data))))
  /\ (forall c raw,
        skipped c = true ->
        keep_lines (c :: raw) = keep_lines raw
        /\ has_header (keep_lines (c :: raw)) = has_header (keep_lines raw)
        /\ _parse_csv_lines (keep_lines (c :: raw))
           = _parse_csv_lines (keep_lines raw)).
Proof.
  pose proof (has_header_first_line l rest) as Hh.
  split; [exact Hh|]. split; [|split].
  - intros Hc. rewrite Hc in Hh. apply parse_no_header; [discriminate|exact Hh].
  - intros Hc. rewrite Hc in Hh.
    rewrite (parse_with_header _ Hh). split; [reflexivity|].
    intros Hl. now apply DictReader_plain_head.
  - intros c raw Hc. now rewrite (keep_lines_skip c raw Hc).
Qed.

Lemma fst_combine {A B : Type} (a : list A) (b : list B) :
  length a = length b -> map fst (combine a b) = a.
Proof.
  revert b; induction a as [|x a IH]; intros [|y b] H; simpl in *;
    try discriminate; [reflexivity|].
  f_equal. apply IH. lia.
Qed.

Lemma snd_combine {A B : Type} (a : list A) (b : list B) :
  length a = length b -> map snd (combine a b) = b.
Proof.
  revert b; induction a as [|x a IH]; intros [|y b] H; simpl in *;
    try discriminate; [reflexivity|].
  f_equal. apply IH. lia.
Qed.

Lemma positional_row_shape (n : nat) (r : list str) :
  length r <= n ->
  dict_keys (positional_row n r) = map Some (map col (seq 0 n))
  /\ map snd (positional_row n r) = map VStr r ++ repeat (VStr []) (n - length r).
Proof.
  intros H. unfold positional_row, dict_keys.
  assert (Hlen : length (map Some (map col (seq 0 n)))
                 = length (map VStr (r ++ repeat [] (n - length r)))).
  { rewrite !length_map, length_seq, length_app, repeat_length. lia. }
  split.
  - now apply fst_combine.
  - etransitivity; [now apply snd_combine|].
    now rewrite map_app, map_repeat.
Qed.

(** C4, as amended.  In the no-header path, for every sequence of lines
    that is not empty, the Row Parser builds one RawRow for each record
    that [csv.reader] yields, in order: [max_len] is the greatest number
    of cells of a record, the names are [col0] to [col(max_len-1)], and
    every record is padded to [max_len] cells with empty strings and
    zipped to the names.  When no line holds a quote character the records
    are the lines, each cut at its commas: one RawRow per line. *)
Theorem no_header_rows (lines : list str) :
  lines <> [] ->
  has_header lines = false ->
  (forall records,
      csv_reader lines = Ret records ->
      _parse_csv_lines lines = Ret (positional_rows records)
      /\ length (positional_rows records) = length records
      /\ (forall r, In r records -> length r <= max_len_of records)
      /\ (records <> [] ->
          exists r, In r records /\ length r = max_len_of records)
      /\ (forall r, In r records ->
            dict_keys (positional_row (max_len_of records) r)
            = map Some (map col (seq 0 (max_len_of records)))
            /\ map snd (positional_row (max_len_of records) r)
               = map VStr r ++ repeat (VStr []) (max_len_of records - length r)))
  /\ (forallb plain_line lines = true ->
      let n := max_len_of (map cells_of lines) in
      _parse_csv_lines lines
      = Ret (map (fun line => positional_row n (cells_of line)) lines)).
Proof.
  intros Hne Hh. split.
  - intros records Hr.
    rewrite (parse_no_header lines Hne Hh), Hr. cbn [bind].
    split; [reflexivity|]. split; [apply length_map|].
    split; [apply max_len_of_bound|]. split; [apply max_len_of_attained|].
    intros r Hin. apply positional_row_shape. now apply max_len_of_bound.
  - intros Hplain n.
    rewrite (parse_no_header lines Hne Hh), (csv_reader_plain lines Hplain).
    cbn [bind]. unfold positional_rows. now rewrite map_map.
Qed.

(** C4, as worded, fails: a quoted field that runs over the end of a line
    joins two lines into one record, and so into one RawRow. *)
Lemma no_header_not_one_row_per_line :
  ~ (forall lines,
        lines <> [] -> has_header lines = false ->
        exists rows, _parse_csv_lines lines = Ret rows
                     /\ length rows = length lines).
Proof.
  intros H.
  destruct (H [lit "http://example.org/a," ++ [DQUOTE] ++ lit "first";
               lit "second" ++ [DQUOTE]])
    as (rows & Hrows & Hlen); [discriminate|reflexivity|].
  vm_compute in Hrows. injection Hrows as <-. discriminate Hlen.
Qed.

(** ** The header path *)

Lemma combine_repeat_none (names : list str) :
  combine (map Some names) (repeat VNone (length names))
  = map (fun k => (Some k, VNone)) names.
Proof. induction names as [|k t IH]; simpl; [reflexivity|now rewrite IH]. Qed.

Lemma padded_pairs_split (fieldnames record : list str) :
  length record <= length fieldnames ->
  padded_pairs fieldnames record
  = combine (map Some fieldnames) (map VStr record)
    ++ map (fun k => (Some k, VNone)) (skipn (length record) fieldnames).
Proof.
  unfold padded_pairs.
  revert fieldnames; induction record as [|x r IH]; intros f H.
  - cbn [map length app skipn]. rewrite Nat.sub_0_r, combine_repeat_none.
    now destruct (map Some f).
  - destruct f as [|k f]; simpl in H; [lia|].
    cbn [map length combine app skipn Nat.sub]. f_equal. apply IH. lia.
Qed.

(** A record that is not longer than the header gives the dict of the
    field names zipped to its cells and to [None] for the missing ones. *)
Lemma dict_row_padded (fieldnames record : list str) :
  length record <= length fieldnames ->
  dict_row fieldnames record = dict_of key_eqb (padded_pairs fieldnames record).
Proof.
  intros H. unfold dict_row.
  replace (length fieldnames <? length record) with false
    by (symmetry; apply Nat.ltb_ge; exact H).
  rewrite (padded_pairs_split _ _ H). unfold dict_of.
  rewrite dict_update_app.
  destruct (length record <? length fieldnames) eqn:E; [reflexivity|].
  apply Nat.ltb_ge in E.
  rewrite skipn_all2 by exact E. reflexivity.
Qed.

Lemma padded_pairs_keys (fieldnames record : list str) :
  length record <= length fieldnames ->
  map fst (padded_pairs fieldnames record) = map Some fieldnames.
Proof.
  intros H. unfold padded_pairs. apply fst_combine.
  rewrite length_app, !length_map, repeat_length. lia.
Qed.

Lemma dict_row_same_keys (fieldnames r1 r2 : list str) :
  length r1 <= length fieldnames -> length r2 <= length fieldnames ->
  dict_keys (dict_row fieldnames r1) = dict_keys (dict_row fieldnames r2).
Proof.
  intros H1 H2. rewrite !dict_row_padded by assumption.
  unfold dict_of. apply dict_keys_update; [reflexivity|].
  now rewrite !padded_pairs_keys.
Qed.

Lemma dict_row_distinct_names (fieldnames record : list str) :
  length record <= length fieldnames -> NoDup fieldnames ->
  dict_row fieldnames record = padded_pairs fieldnames record.
Proof.
  intros H Hnd. rewrite (dict_row_padded _ _ H).
  apply (dict_of_nodup key_eqb key_eqb_eq).
  rewrite (padded_pairs_keys _ _ H).
  apply Finite.Injective_map_NoDup; [intros a b; congruence|exact Hnd].
Qed.

(** C2, as amended.  In the header path the first record gives the field
    names and every other record that is not empty gives one RawRow.  The
    rows of the records that are not longer than the header all have the
    same keys; with distinct field names such a row is the names zipped
    to the cells as they were parsed, not trimmed, and then to [None], not
    the empty string, for the missing trailing cells.  It is the Entry
    Normalizer that trims a cell and reads [None] as the empty string. *)
Theorem header_rows (lines : list str) (fieldnames : list str)
  (data : list (list str)) :
  has_header lines = true ->
  csv_reader lines = Ret (fieldnames :: data) ->
  _parse_csv_lines lines = Ret (named_rows fieldnames data)
  /\ (forall r1 r2,
        length r1 <= length fieldnames -> length r2 <= length fieldnames ->
        dict_keys (dict_row fieldnames r1) = dict_keys (dict_row fieldnames r2))
  /\ (forall record,
        length record <= length fieldnames -> NoDup fieldnames ->
        dict_row fieldnames record
        = combine (map Some fieldnames)
            (map VStr record
             ++ repeat VNone (length fieldnames - length record)))
  /\ clean_value VNone = Ret []
  /\ (forall s, clean_value (VStr s) = Ret (strip s)).
Proof.
  intros Hh Hr. split.
  - rewrite (parse_with_header lines Hh). unfold DictReader.
    now rewrite Hr.
  - split; [apply dict_row_same_keys|].
    split; [apply dict_row_distinct_names|].
    split; [reflexivity|].
    intros [|c t]; reflexivity.
Qed.

(** C2, as worded, fails: the cells of a row are not trimmed, and the
    missing cell of a short row is [None]. *)
Lemma header_rows_not_as_claimed :
  ~ (forall lines rows,
        has_header lines = true ->
        _parse_csv_lines lines = Ret rows ->
        forall row k v,
          In row rows -> In (k, v) row -> exists s, v = VStr s /\ strip s = s).
Proof.
  intros H.
  assert (Hrows : _parse_csv_lines [lit "uri,label"; lit " http://example.org/Foo "]
                  = Ret [[(Some (lit "uri"), VStr (lit " http://example.org/Foo "));
                          (Some (lit "label"), VNone)]])
    by (vm_compute; reflexivity).
  assert (Hh : has_header [lit "uri,label"; lit " http://example.org/Foo "] = true)
    by (vm_compute; reflexivity).
  destruct (H _ _ Hh Hrows _ (Some (lit "label")) VNone (or_introl eq_refl))
    as (s & Hs & _); [right; left; reflexivity|discriminate Hs].
Qed.

(** Nor is a cell with surrounding whitespace trimmed by the parser. *)
Lemma header_rows_keep_whitespace :
  _parse_csv_lines [lit "uri,label"; lit " http://example.org/Foo , Foo "]
  = Ret [[(Some (lit "uri"), VStr (lit " http://example.org/Foo "));
          (Some (lit "label"), VStr (lit " Foo "))]].
Proof. vm_compute. reflexivity. Qed.

(** ** Labels *)

(** C1 fails on the code for the vocabularies that are not [licenses]: a
    URI whose last segment holds only [_] or [-] derives the empty label,
    and the entry is emitted with it.  The CSV below is converted to one
    entry with an empty label. *)
Theorem uri_label_entry_empty_label :
  normalize_vocab_entry (lit "access_rights")
    [(Some (lit "uri"), VStr (lit "http://example.org/_"));
     (Some (lit "label"), VStr [])]
  = Ret (Some [(lit "uri", lit "http://example.org/_"); (lit "label", [])])
  /\ (rows <- _parse_csv_lines [lit "uri,label"; lit "http://example.org/_,"] ;;
      collect_entries (lit "access_rights") rows [])
     = Ret [[(lit "uri", lit "http://example.org/_"); (lit "label", [])]].
Proof. split; vm_compute; reflexivity. Qed.

(** The [licenses] branch guards the same derivation with [Unknown]: its
    entries always have a label that is not empty. *)
Lemma licenses_label_not_empty (row : RawRow) (entry : Entry) :
  normalize_vocab_entry (lit "licenses") row = Ret (Some entry) ->
  exists label, dict_get str_eqb entry (lit "label") = Some label /\ label <> [].
Proof.
  unfold normalize_vocab_entry.
  replace (str_eqb (lit "licenses") (lit "licenses")) with true by reflexivity.
  destruct (lowered_keys [] row) as [keys|e]; cbn [bind]; [|discriminate].
  match goal with |- (if ?b then _ else _) = _ -> _ => destruct b end;
    [discriminate|].
  intros H. injection H as <-.
  eexists. split; [apply (dict_get_set_same str_eqb str_eqb_eq)|].
  unfold str_or.
  repeat match goal with
         | |- context [truthy ?x] =>
             let E := fresh "E" in
             destruct (truthy x) eqn:E; [now apply truthy_true in E|]
         end.
  discriminate.
Qed.

(** ** The theorems at sample inputs *)

Lemma uri_label_entry_witness :
  str_eqb (lit "file_types") (lit "licenses") = false
  /\ str_row sample_uri_row = true
  /\ exists entry,
       normalize_vocab_entry (lit "file_types") sample_uri_row = Ret (Some entry)
       /\ dict_get str_eqb entry (lit "uri") = Some (lit "http://example.org/Foo")
       /\ dict_get str_eqb entry (lit "label") = Some (lit "My Label")
       /\ dict_get str_eqb entry (lit "equivalentUri") = None.
Proof.
  split; [reflexivity|]. split; [reflexivity|].
  destruct (uri_label_entry (lit "file_types") sample_uri_row eq_refl eq_refl)
    as [_ H].
  destruct H as (entry & Hn & Hu & Hl & He & _); [vm_compute; discriminate|].
  exists entry. repeat split; assumption.
Defined.

Lemma licenses_entry_witness :
  str_row sample_license_row = true
  /\ exists entry,
       normalize_vocab_entry (lit "licenses") sample_license_row = Ret (Some entry)
       /\ dict_get str_eqb entry (lit "label") = Some (lit "MIT")
       /\ dict_get str_eqb entry (lit "uri") = None
       /\ dict_get str_eqb entry (lit "code") = Some (lit "MIT")
       /\ dict_get str_eqb entry (lit "url") = None.
Proof.
  split; [reflexivity|].
  destruct (licenses_entry sample_license_row eq_refl) as [_ H].
  destruct H as (entry & Hn & Hl & Hu & Hc & Hr & _).
  - vm_compute. intros (_ & H & _). discriminate H.
  - exists entry. repeat split; assumption.
Defined.

Lemma count_is_number_of_entries_witness :
  exists doc,
    written (convert_vocab sample_world (lit "file_types")
               (lit "docs/vocabularies/file_types.csv")
               (lit "public/data/file_types.json") (lit "json") false)
    = Some doc
    /\ exists rows es,
         read_rows sample_world (lit "docs/vocabularies/file_types.csv") false
         = Ret rows
         /\ es = map entry_json (emitted (lit "file_types") rows)
         /\ doc_entries doc = Some es
         /\ doc_count doc = Some (JInt (length es))
         /\ returned (convert_vocab sample_world (lit "file_types")
                        (lit "docs/vocabularies/file_types.csv")
                        (lit "public/data/file_types.json") (lit "json") false)
            = Ret (length es).
Proof.
  eexists. split; [vm_compute; reflexivity|].
  apply count_is_number_of_entries. vm_compute. reflexivity.
Defined.

Lemma empty_source_envelope_witness :
  forallb skipped (file_lines comments_csv) = true
  /\ read_rows comments_world (lit "docs/vocabularies/licenses.csv") false = Ret []
  /\ convert_vocab comments_world (lit "licenses")
       (lit "docs/vocabularies/licenses.csv")
       (lit "public/data/licenses.jsonl") (lit "jsonl") false
     = mkRun (Ret 0)
         (Some (JsonlFile
                  [JObj (envelope (lit "docs/vocabularies/licenses.csv")
                           (lit "2024-01-01T00:00:00Z") (lit "jsonl")
                           (lit "licenses") (lit "licenses") 0)])).
Proof.
  split; [vm_compute; reflexivity|].
  apply (empty_source_envelope comments_world (lit "licenses")
           (lit "docs/vocabularies/licenses.csv")
           (lit "public/data/licenses.jsonl") (lit "jsonl") false
           (lit "docs/vocabularies/licenses.csv") (lit "licenses") comments_csv);
    vm_compute; reflexivity.
Defined.

Lemma read_failure_writes_nothing_witness :
  read_rows offline_world (lit "https://example.org/licenses.csv") true
  = Raise RuntimeError
  /\ written (convert_vocab offline_world (lit "licenses")
                (lit "https://example.org/licenses.csv")
                (lit "public/data/licenses.jsonl") (lit "jsonl") true)
     = None
  /\ convert_vocab offline_world (lit "licenses")
       (lit "https://example.org/licenses.csv")
       (lit "public/data/licenses.jsonl") (lit "jsonl") true
     = mkRun (Ret 0) None.
Proof.
  split; [reflexivity|].
  destruct (read_failure_writes_nothing offline_world (lit "licenses")
              (lit "https://example.org/licenses.csv")
              (lit "public/data/licenses.jsonl") (lit "jsonl") true
              RuntimeError eq_refl) as [Hw Hr].
  split; [exact Hw|].
  exact (Hr (lit "https://example.org/licenses.csv") (lit "licenses")
            eq_refl eq_refl).
Defined.

Lemma header_decision_witness :
  contains (lit "://") (lit "http://example.org/a,A") = true
  /\ skipped (lit "# a comment") = true
  /\ has_header [lit "http://example.org/a,A"; lit "http://example.org/b"] = false
  /\ has_header (keep_lines [lit "# a comment"; lit "http://example.org/a,A";
                             lit "http://example.org/b"])
     = has_header (keep_lines [lit "http://example.org/a,A";
                               lit "http://example.org/b"]).
Proof.
  split; [reflexivity|]. split; [reflexivity|].
  destruct (header_decision (lit "http://example.org/a,A")
              [lit "http://example.org/b"]) as (Hd & _ & _ & Hc).
  split; [exact Hd|].
  exact (proj1 (proj2 (Hc (lit "# a comment")
                          [lit "http://example.org/a,A"; lit "http://example.org/b"]
                          eq_refl))).
Defined.

Lemma no_header_rows_witness :
  [lit "http://example.org/a,A"; lit "http://example.org/b"] <> []
  /\ has_header [lit "http://example.org/a,A"; lit "http://example.org/b"] = false
  /\ forallb plain_line [lit "http://example.org/a,A"; lit "http://example.org/b"]
     = true
  /\ _parse_csv_lines [lit "http://example.org/a,A"; lit "http://example.org/b"]
     = Ret [ [(Some (lit "col0"), VStr (lit "http://example.org/a"));
              (Some (lit "col1"), VStr (lit "A"))];
             [(Some (lit "col0"), VStr (lit "http://example.org/b"));
              (Some (lit "col1"), VStr [])] ].
Proof.
  split; [discriminate|]. split; [reflexivity|].
  split; [vm_compute; reflexivity|].
  exact (proj2 (no_header_rows
                  [lit "http://example.org/a,A"; lit "http://example.org/b"]
                  ltac:(discriminate) eq_refl)
               ltac:(vm_compute; reflexivity)).
Defined.

Lemma header_rows_witness :
  has_header [lit "uri,label,note"; lit "http://example.org/Foo, Foo "] = true
  /\ csv_reader [lit "uri,label,note"; lit "http://example.org/Foo, Foo "]
     = Ret [[lit "uri"; lit "label"; lit "note"];
            [lit "http://example.org/Foo"; lit " Foo "]]
  /\ _parse_csv_lines [lit "uri,label,note"; lit "http://example.org/Foo, Foo "]
     = Ret [ [(Some (lit "uri"), VStr (lit "http://example.org/Foo"));
              (Some (lit "label"), VStr (lit " Foo "));
              (Some (lit "note"), VNone)] ].
Proof.
  split; [reflexivity|]. split; [vm_compute; reflexivity|].
  exact (proj1 (header_rows
                  [lit "uri,label,note"; lit "http://example.org/Foo, Foo "]
                  [lit "uri"; lit "label"; lit "note"]
                  [[lit "http://example.org/Foo"; lit " Foo "]]
                  eq_refl ltac:(vm_compute; reflexivity))).
Defined.

(** ** The scenarios of the specification *)

(** A record longer than the header puts its surplus cells under the key
    [None], and the Entry Normalizer raises on that key. *)
Lemma surplus_cells_raise :
  _parse_csv_lines [lit "uri,label"; lit "http://example.org/Foo,Foo,extra"]
  = Ret [[(Some (lit "uri"), VStr (lit "http://example.org/Foo"));
          (Some (lit "label"), VStr (lit "Foo"));
          (None, VList [lit "extra"])]]
  /\ normalize_vocab_entry (lit "file_types")
       [(Some (lit "uri"), VStr (lit "http://example.org/Foo"));
        (Some (lit "label"), VStr (lit "Foo"));
        (None, VList [lit "extra"])]
     = Raise AttributeError.
Proof. split; vm_compute; reflexivity. Qed.

(** Header [uri,label] and row [http://example.org/Foo,My Label]. *)
Lemma round_trip_scenario :
  (rows <- _parse_csv_lines [lit "uri,label"; lit "http://example.org/Foo,My Label"] ;;
   collect_entries (lit "file_types") rows [])
  = Ret [[(lit "uri", lit "http://example.org/Foo"); (lit "label", lit "My Label")]].
Proof. vm_compute. reflexivity. Qed.

(** A licenses row with a code only, and one with nothing. *)
Lemma licenses_scenarios :
  normalize_vocab_entry (lit "licenses") sample_license_row
  = Ret (Some [(lit "code", lit "MIT"); (lit "label", lit "MIT")])
  /\ normalize_vocab_entry (lit "licenses")
       [(Some (lit "authority_uri"), VStr []); (Some (lit "code"), VStr []);
        (Some (lit "url"), VStr [])]
     = Ret None.
Proof. split; vm_compute; reflexivity. Qed.

(** A file of bare URIs is all data, under the one column [col0]. *)
Lemma bare_uris_scenario :
  _parse_csv_lines (keep_lines (file_lines
    (lit "# uris" ++ [LF] ++ lit "http://example.org/a" ++ [LF]
     ++ lit "http://example.org/b" ++ [LF])))
  = Ret [[(Some (lit "col0"), VStr (lit "http://example.org/a"))];
         [(Some (lit "col0"), VStr (lit "http://example.org/b"))]].
Proof. vm_compute. reflexivity. Qed.

(** A source of zero bytes, fetched from a URL, written as JSON. *)
Lemma empty_source_scenario :
  convert_vocab
    (mkWorld (fun p => Ret p) (fun _ => Ret []) (fun _ => Raise OSError)
             (lit "2024-01-01T00:00:00") (fun _ => true))
    (lit "media_types") (lit "https://example.org/media_types.csv")
    (lit "public/data/media_types.json") (lit "json") true
  = mkRun (Ret 0)
      (Some (JsonFile
               (JObj (envelope (lit "https://example.org/media_types.csv")
                        (lit "2024-01-01T00:00:00Z") (lit "json")
                        (lit "uri_label") (lit "media_types") 0
                      ++ [(lit "entries", JArr [])])))).
Proof. vm_compute. reflexivity. Qed.

(** * Further properties *)

(** ** Trimming *)

Lemma lstrip_head (s : str) (c : ascii) (t : str) :
  lstrip s = c :: t -> isspace c = false.
Proof.
  induction s as [|x s IH]; simpl; [discriminate|].
  destruct (isspace x) eqn:Hx; [exact IH|].
  intros [= <- _]. exact Hx.
Qed.

Lemma rstrip_head (c : ascii) (t : str) :
  isspace c = false -> exists r, rstrip (c :: t) = c :: r.
Proof.
  intros Hc. cbn [rstrip]. rewrite Hc.
  destruct (rstrip t) as [|x r]; eauto.
Qed.

Lemma rstrip_idempotent (s : str) : rstrip (rstrip s) = rstrip s.
Proof.
  induction s as [|c t IH]; [reflexivity|]. cbn [rstrip].
  destruct (rstrip t) as [|x r] eqn:Hr.
  - destruct (isspace c) eqn:Hc; [reflexivity|].
    cbn [rstrip]. now rewrite Hc.
  - change (rstrip (c :: x :: r))
      with (match rstrip (x :: r) with
            | [] => if isspace c then [] else [c]
            | y :: r' => c :: y :: r'
            end).
    now rewrite IH.
Qed.

Lemma lstrip_rstrip_lstrip (s : str) : lstrip (rstrip (lstrip s)) = rstrip (lstrip s).
Proof.
  destruct (lstrip s) as [|c t] eqn:Hs; [reflexivity|].
  pose proof (lstrip_head s c t Hs) as Hc.
  destruct (rstrip_head c t Hc) as [r ->]. cbn [lstrip]. now rewrite Hc.
Qed.

Lemma strip_idempotent (s : str) : trimmed (strip s).
Proof.
  unfold trimmed, strip. now rewrite lstrip_rstrip_lstrip, rstrip_idempotent.
Qed.

Lemma forallb_lstrip (P : ascii -> bool) (s : str) :
  forallb P s = true -> forallb P (lstrip s) = true.
Proof.
  induction s as [|c t IH]; simpl; [reflexivity|]. intros H.
  destruct (isspace c); [|exact H].
  apply andb_true_iff in H as [_ H]. now apply IH.
Qed.

Lemma forallb_rstrip (P : ascii -> bool) (s : str) :
  forallb P s = true -> forallb P (rstrip s) = true.
Proof.
  induction s as [|c t IH]; simpl; [reflexivity|]. intros H.
  apply andb_true_iff in H as [Hc Ht]. specialize (IH Ht).
  destruct (rstrip t) as [|x r].
  - destruct (isspace c); simpl; [reflexivity|now rewrite Hc].
  - cbn [forallb] in *. now rewrite Hc.
Qed.

Lemma forallb_strip (P : ascii -> bool) (s : str) :
  forallb P s = true -> forallb P (strip s) = true.
Proof. intros H. now apply forallb_rstrip, forallb_lstrip. Qed.

(** ** The derived label *)

Lemma after_last_sep_no_sep (u : str) : existsb is_sep (after_last_sep u) = false.
Proof.
  induction u as [|c t IH]; [reflexivity|]. cbn [after_last_sep].
  destruct (existsb is_sep t) eqn:Ht; [exact IH|].
  destruct (is_sep c) eqn:Hc; [exact Ht|].
  cbn [existsb]. now rewrite Hc, Ht.
Qed.

Lemma replaced_label_chars (s : str) :
  existsb is_sep s = false ->
  forallb label_char (replace "-" " " (replace "_" " " s)) = true.
Proof.
  induction s as [|c t IH]; [reflexivity|]. cbn [existsb]. intros H.
  apply orb_false_iff in H as [Hc Ht].
  unfold replace in *. cbn [map forallb]. rewrite (IH Ht), andb_true_r.
  destruct (Ascii.eqb c "_") eqn:Hu; [reflexivity|].
  destruct (Ascii.eqb c "-") eqn:Hd; [reflexivity|].
  unfold label_char. now rewrite Hc, Hu, Hd.
Qed.

Lemma slug_label_from_uri_trimmed (uri : str) : trimmed (slug_label_from_uri uri).
Proof. rewrite slug_label_from_uri_derived. apply strip_idempotent. Qed.

(** X1.  The label derived from a URI holds no [/], [#], [_] or [-], and
    has no surrounding whitespace. *)
Theorem slug_label_from_uri_clean (uri : str) :
  forallb label_char (slug_label_from_uri uri) = true
  /\ trimmed (slug_label_from_uri uri).
Proof.
  rewrite slug_label_from_uri_derived.
  unfold derived_label. split.
  - apply forallb_strip, replaced_label_chars, after_last_sep_no_sep.
  - apply strip_idempotent.
Qed.

(** ** The test of the Line Filter *)

Lemma skipped_lstrip (line : str) :
  skipped line = match lstrip line with
                 | [] => true
                 | c :: _ => Ascii.eqb "#" c
                 end.
Proof.
  unfold skipped, strip.
  destruct (lstrip line) as [|c t] eqn:Hl; [reflexivity|].
  destruct (rstrip_head c t (lstrip_head line c t Hl)) as [r ->].
  cbn. now rewrite andb_true_r, orb_false_r.
Qed.

(** X2.  A line is dropped exactly when it holds whitespace only or its
    first character that is not whitespace is [#]. *)
Theorem skipped_first_char (line : str) :
  skipped line = match lstrip line with
                 | [] => true
                 | c :: _ => Ascii.eqb "#" c
                 end.
Proof. apply skipped_lstrip. Qed.

(** ** Errors of the Entry Normalizer *)

Lemma normalize_raises_aux (name : str) (row : RawRow) :
  (str_row row = false -> normalize_vocab_entry name row = Raise AttributeError)
  /\ (str_row row = true -> exists o, normalize_vocab_entry name row = Ret o).
Proof.
  unfold normalize_vocab_entry. split; intros H.
  - rewrite (lowered_keys_raises row [] H).
    destruct (str_eqb name (lit "licenses")); reflexivity.
  - destruct (lowered_keys_str_row row [] H) as [keys ->].
    destruct (str_eqb name (lit "licenses")); cbn [bind];
      match goal with |- exists _, (if ?b then _ else _) = _ => destruct b end;
      eauto.
Qed.

(** X3.  [normalize_vocab_entry] raises exactly on the rows that hold a
    [None] key or a list of surplus cells, and what it raises then is
    [AttributeError]; on every other row it returns. *)
Theorem normalize_vocab_entry_raises (name : str) (row : RawRow) :
  (str_row row = false -> normalize_vocab_entry name row = Raise AttributeError)
  /\ (str_row row = true -> exists o, normalize_vocab_entry name row = Ret o).
Proof. apply normalize_raises_aux. Qed.

Lemma normalize_vocab_entry_raises_witness :
  str_row [(Some (lit "uri"), VStr (lit "http://example.org/Foo"));
           (None, VList [lit "extra"])] = false
  /\ normalize_vocab_entry (lit "file_types")
       [(Some (lit "uri"), VStr (lit "http://example.org/Foo"));
        (None, VList [lit "extra"])]
     = Raise AttributeError.
Proof.
  split; [reflexivity|].
  exact (proj1 (normalize_vocab_entry_raises (lit "file_types")
                  [(Some (lit "uri"), VStr (lit "http://example.org/Foo"));
                   (None, VList [lit "extra"])]) eq_refl).
Defined.

(** ** Column names *)

Lemma lowered_keys_key_norm (row row' : RawRow) (acc : @dict str str) :
  map (fun kv => key_norm (fst kv)) row = map (fun kv => key_norm (fst kv)) row' ->
  map snd row = map snd row' ->
  lowered_keys acc row = lowered_keys acc row'.
Proof.
  revert row' acc; induction row as [|[k v] t IH]; intros [|[k' v'] t'] acc Hk Hv;
    simpl in *; try discriminate; [reflexivity|].
  injection Hk as Hk Hk'. injection Hv as -> Hv'.
  destruct k as [n|], k' as [n'|]; simpl in Hk; try discriminate; [|reflexivity].
  injection Hk as ->.
  destruct (clean_value v'); cbn [bind]; [|reflexivity].
  now apply IH.
Qed.

(** X4.  The Entry Normalizer reads a column name without regard to case
    and to surrounding whitespace: two rows with the same cells, whose
    keys are the same once lowered and trimmed, normalize alike. *)
Theorem normalize_vocab_entry_key_norm (name : str) (row row' : RawRow) :
  map (fun kv => key_norm (fst kv)) row = map (fun kv => key_norm (fst kv)) row' ->
  map snd row = map snd row' ->
  normalize_vocab_entry name row = normalize_vocab_entry name row'.
Proof.
  intros Hk Hv. unfold normalize_vocab_entry.
  now rewrite (lowered_keys_key_norm row row' [] Hk Hv).
Qed.

Lemma normalize_vocab_entry_key_norm_witness :
  normalize_vocab_entry (lit "file_types")
    [(Some (lit " URI"), VStr (lit "http://example.org/Foo"));
     (Some (lit "Label "), VStr (lit "Foo"))]
  = normalize_vocab_entry (lit "file_types")
      [(Some (lit "uri"), VStr (lit "http://example.org/Foo"));
       (Some (lit "label"), VStr (lit "Foo"))].
Proof.
  apply normalize_vocab_entry_key_norm; reflexivity.
Defined.

(** ** Labels of licenses *)

(** X5.  Every entry that [normalize_vocab_entry] returns for [licenses]
    has a label, and the label is not empty. *)
Theorem licenses_entry_label (row : RawRow) (entry : Entry) :
  normalize_vocab_entry (lit "licenses") row = Ret (Some entry) ->
  exists label, dict_get str_eqb entry (lit "label") = Some label /\ label <> [].
Proof. apply licenses_label_not_empty. Qed.

Lemma licenses_entry_label_witness :
  exists label,
    dict_get str_eqb
      [(lit "uri", lit "http://example.org/licenses/_"); (lit "label", lit "Unknown")]
      (lit "label") = Some label
    /\ label <> [].
Proof.
  apply (licenses_entry_label authority_only_row). vm_compute. reflexivity.
Defined.

(** ** Values of an entry *)

Lemma trimmed_values_set (d : @dict str str) (k v : str) :
  trimmed_values d -> trimmed v -> trimmed_values (dict_set str_eqb d k v).
Proof.
  intros Hd Hv. induction d as [|[k0 v0] t IH]; simpl.
  - intros k' v' [[= <- <-]|[]]. exact Hv.
  - assert (Ht : trimmed_values t) by (intros a b Hin; apply (Hd a b); now right).
    destruct (str_eqb k0 k); intros k' v' [[= <- <-]|Hin].
    + exact Hv.
    + apply (Hd k' v'). now right.
    + apply (Hd k0 v0). now left.
    + now apply (IH Ht k' v').
Qed.

Lemma clean_value_trimmed (v : cell) (s : str) :
  clean_value v = Ret s -> trimmed s.
Proof.
  intros H. apply clean_value_text in H. subst s.
  destruct v; [reflexivity|apply strip_idempotent|reflexivity].
Qed.

Lemma lowered_keys_trimmed (row : RawRow) (acc keys : @dict str str) :
  trimmed_values acc -> lowered_keys acc row = Ret keys -> trimmed_values keys.
Proof.
  revert acc; induction row as [|[k v] t IH]; intros acc Hacc H; simpl in H.
  - now injection H as <-.
  - destruct k as [n|]; [|discriminate].
    destruct (clean_value v) as [v'|e] eqn:Hv; cbn [bind] in H; [|discriminate].
    apply (IH _ (trimmed_values_set acc _ v' Hacc (clean_value_trimmed v v' Hv)) H).
Qed.

Lemma dict_get_in (d : @dict str str) (k v : str) :
  dict_get str_eqb d k = Some v -> exists k', In (k', v) d.
Proof.
  induction d as [|[k0 v0] t IH]; simpl; [discriminate|].
  destruct (str_eqb k0 k).
  - intros [= <-]. exists k0. now left.
  - intros H. destruct (IH H) as [k' Hin]. exists k'. now right.
Qed.

Lemma first_of_trimmed (keys : @dict str str) (a b c : str) :
  trimmed_values keys -> trimmed (first_of keys a b c).
Proof.
  intros Hk.
  assert (Hget : forall k v, dict_get str_eqb keys k = Some v -> trimmed v).
  { intros k v H. destruct (dict_get_in keys k v H) as [k' Hin]. exact (Hk k' v Hin). }
  unfold first_of, get_or, get_default.
  destruct (dict_get str_eqb keys a) as [va|] eqn:Ha;
    [destruct (truthy va); [exact (Hget a va Ha)|]|];
    (destruct (dict_get str_eqb keys b) as [vb|] eqn:Hb;
     [destruct (truthy vb); [exact (Hget b vb Hb)|]|];
     (destruct (dict_get str_eqb keys c) as [vc|] eqn:Hc;
      [exact (Hget c vc Hc)|reflexivity])).
Qed.

Lemma trimmed_values_nil : trimmed_values [].
Proof. intros k v []. Qed.

Lemma trimmed_values_cons (d : @dict str str) (k v : str) :
  trimmed v -> trimmed_values d -> trimmed_values ((k, v) :: d).
Proof.
  intros Hv Hd k' v' [[= <- <-]|Hin]; [exact Hv|exact (Hd k' v' Hin)].
Qed.

(** X6.  Every value of an entry that [normalize_vocab_entry] returns is
    free of surrounding whitespace. *)
Theorem entry_values_trimmed (name : str) (row : RawRow) (entry : Entry) :
  normalize_vocab_entry name row = Ret (Some entry) ->
  forall k v, In (k, v) entry -> trimmed v.
Proof.
  unfold normalize_vocab_entry.
  destruct (lowered_keys [] row) as [keys|e] eqn:Hkeys;
    [|destruct (str_eqb name (lit "licenses")); discriminate].
  pose proof (lowered_keys_trimmed row [] keys trimmed_values_nil Hkeys) as Hk.
  pose proof (fun a b c => first_of_trimmed keys a b c Hk) as Hf.
  pose proof slug_label_from_uri_trimmed as Hs.
  destruct (str_eqb name (lit "licenses")); cbn [bind];
    match goal with |- (if ?b then _ else _) = _ -> _ => destruct b end;
    try discriminate; intros [= <-];
    match goal with
    | |- forall k v, In (k, v) ?d -> trimmed v => change (trimmed_values d)
    end; unfold str_or;
    repeat match goal with
           | |- trimmed_values (if ?b then _ else _) => destruct b
           | |- trimmed_values (dict_set _ _ _ _) => apply trimmed_values_set
           | |- trimmed_values (_ :: _) => apply trimmed_values_cons
           | |- trimmed_values [] => exact trimmed_values_nil
           | |- trimmed (if ?b then _ else _) => destruct b
           | |- trimmed (first_of _ _ _ _) => apply Hf
           | |- trimmed (slug_label_from_uri _) => apply Hs
           end; reflexivity.
Qed.

Lemma entry_values_trimmed_witness :
  trimmed (lit "My Label").
Proof.
  apply (entry_values_trimmed (lit "file_types") sample_uri_row
           [(lit "uri", lit "http://example.org/Foo"); (lit "label", lit "My Label")]
           ltac:(vm_compute; reflexivity) (lit "label")).
  right. left. reflexivity.
Defined.

(** ** Rows that the Entry Normalizer accepts *)

Lemma str_row_combine (names : list str) (cells : list str) :
  str_row (combine (map Some names) (map VStr cells)) = true.
Proof.
  revert cells; induction names as [|k t IH]; intros [|c cells]; simpl; auto.
Qed.

Lemma str_row_set (d : RawRow) (k : str) (v : cell) :
  str_row d = true ->
  match v with VList (_ :: _) => False | _ => True end ->
  str_row (dict_set key_eqb d (Some k) v) = true.
Proof.
  intros Hd Hv. induction d as [|[k0 v0] t IH]; simpl in *.
  - destruct v as [| |[|]]; tauto.
  - apply andb_true_iff in Hd as [H0 Ht].
    destruct (key_eqb k0 (Some k)) eqn:E; simpl.
    + apply key_eqb_eq in E. subst k0. rewrite Ht.
      destruct v as [| |[|]]; tauto.
    + now rewrite H0, IH.
Qed.

Lemma str_row_update (d : RawRow) (pairs : list (key * cell)) :
  str_row d = true -> str_row pairs = true ->
  str_row (dict_update key_eqb d pairs) = true.
Proof.
  revert d; induction pairs as [|[k v] t IH]; intros d Hd Hp; simpl in *;
    [exact Hd|].
  apply andb_true_iff in Hp as [Hkv Ht].
  destruct k as [k|]; [|discriminate].
  apply IH; [|exact Ht]. apply str_row_set; [exact Hd|].
  destruct v as [| |[|]]; try exact I. discriminate.
Qed.

Lemma str_row_padded_pairs (fieldnames record : list str) :
  str_row (padded_pairs fieldnames record) = true.
Proof.
  unfold padded_pairs.
  generalize (length fieldnames - length record) as n.
  revert record; induction fieldnames as [|k t IH]; intros record n;
    [reflexivity|].
  destruct record as [|c cells]; cbn [map app].
  - destruct n as [|n]; [reflexivity|]. cbn [repeat combine].
    change (str_row ((Some k, VNone) :: combine (map Some t) (repeat VNone n)) = true).
    cbn [str_row forallb]. apply (IH [] n).
  - cbn [combine]. cbn [str_row forallb]. apply (IH cells n).
Qed.

Lemma str_row_set_none (d : RawRow) (v : cell) :
  str_row (dict_set key_eqb d None v) = false.
Proof.
  induction d as [|[k0 v0] t IH]; [reflexivity|]. cbn [dict_set].
  destruct k0 as [k0|]; cbn [key_eqb]; [|reflexivity].
  change (str_row ((Some k0, v0) :: dict_set key_eqb t None v))
    with ((match v0 with VList (_ :: _) => false | _ => true end)
          && str_row (dict_set key_eqb t None v)).
  rewrite IH. apply andb_false_r.
Qed.

(** A row of the header path is free of a [None] key exactly when its
    record is not longer than the header. *)
Lemma str_row_dict_row (fieldnames record : list str) :
  str_row (dict_row fieldnames record) = (length record <=? length fieldnames).
Proof.
  destruct (length record <=? length fieldnames) eqn:E.
  - apply Nat.leb_le in E. rewrite (dict_row_padded _ _ E).
    apply str_row_update; [reflexivity|apply str_row_padded_pairs].
  - apply Nat.leb_gt in E. unfold dict_row.
    replace (length fieldnames <? length record) with true
      by (symmetry; now apply Nat.ltb_lt).
    apply str_row_set_none.
Qed.

(** X7.  The rows of the no-header path never make the Entry Normalizer
    raise.  A row of the header path makes it raise, and then an
    [AttributeError], exactly when its record has more cells than the
    header has names. *)
Theorem rows_that_raise :
  (forall lines rows row name,
      has_header lines = false ->
      _parse_csv_lines lines = Ret rows ->
      In row rows ->
      exists o, normalize_vocab_entry name row = Ret o)
  /\ (forall fieldnames record name,
        normalize_vocab_entry name (dict_row fieldnames record)
        = Raise AttributeError
        <-> length fieldnames < length record).
Proof.
  split.
  - intros lines rows row name Hh Hp Hin.
    apply (proj2 (normalize_raises_aux name row)).
    destruct lines as [|l t]; [injection Hp as <-; destruct Hin|].
    rewrite (parse_no_header (l :: t) ltac:(discriminate) Hh) in Hp.
    destruct (csv_reader (l :: t)) as [records|e]; [|discriminate].
    injection Hp as <-. unfold positional_rows in Hin.
    apply in_map_iff in Hin as (r & <- & _). apply str_row_combine.
  - intros fieldnames record name.
    pose proof (str_row_dict_row fieldnames record) as Hs.
    destruct (normalize_raises_aux name (dict_row fieldnames record)) as [Hr Hok].
    split.
    + intros H. destruct (length record <=? length fieldnames) eqn:E.
      * destruct (Hok Hs) as [o Ho]. congruence.
      * now apply Nat.leb_gt in E.
    + intros H. apply Hr. rewrite Hs. now apply Nat.leb_gt.
Qed.

Lemma rows_that_raise_witness :
  length [lit "uri"; lit "label"]
  < length [lit "http://example.org/Foo"; lit "Foo"; lit "extra"]
  /\ normalize_vocab_entry (lit "file_types")
       (dict_row [lit "uri"; lit "label"]
                 [lit "http://example.org/Foo"; lit "Foo"; lit "extra"])
     = Raise AttributeError.
Proof.
  assert (H : length [lit "uri"; lit "label"]
              < length [lit "http://example.org/Foo"; lit "Foo"; lit "extra"])
    by (cbn; lia).
  split; [exact H|].
  exact (proj2 (proj2 rows_that_raise [lit "uri"; lit "label"]
                  [lit "http://example.org/Foo"; lit "Foo"; lit "extra"]
                  (lit "file_types")) H).
Defined.

(** ** What a conversion leaves *)

Lemma convert_vocab_cases (w : World)
  (name csv_source output_path output_format : str) (source_is_url : bool) :
  let r := convert_vocab w name csv_source output_path output_format source_is_url in
  (exists e, r = mkRun (Raise e) None)
  \/ r = mkRun (Ret 0) None
  \/ exists rows doc,
       read_rows w csv_source source_is_url = Ret rows
       /\ r = mkRun (Ret (length (emitted name rows))) (Some doc).
Proof.
  unfold convert_vocab. fold (read_rows w csv_source source_is_url).
  destruct (if source_is_url then Ret csv_source else relative_to_root w csv_source)
    as [source_desc|e]; [|left; now exists e].
  destruct (dict_get str_eqb VOCABS name) as [type|]; [|left; now exists KeyError].
  destruct (read_rows w csv_source source_is_url) as [rows|e].
  2: { destruct e; try (left; eexists; reflexivity). right; left; reflexivity. }
  destruct (collect_entries name rows []) as [entries|e] eqn:Hc;
    [|left; now exists e].
  apply collect_entries_emitted in Hc. simpl in Hc. subst entries.
  destruct (writable w output_path); cbn [negb]; [|left; now exists OSError].
  right; right. exists rows.
  destruct (str_eqb output_format (lit "jsonl")); eexists; split; reflexivity.
Qed.

Lemma convert_vocab_all_or_nothing_aux (w : World)
  (name csv_source output_path output_format : str) (source_is_url : bool) :
  let r := convert_vocab w name csv_source output_path output_format source_is_url in
  (forall e, returned r = Raise e -> written r = None)
  /\ (forall doc, written r = Some doc -> exists n, returned r = Ret n)
  /\ (forall n, returned r = Ret n -> written r = None -> n = 0).
Proof.
  intros r.
  destruct (convert_vocab_cases w name csv_source output_path output_format
              source_is_url) as [[e H]|[H|(rows & doc & _ & H)]];
    fold r in H; rewrite H; cbn [returned written];
    repeat split; intros; try discriminate; try congruence; eauto.
Qed.

(** X8.  Whenever [convert_vocab] returns, either reading the rows raised
    the [RuntimeError] of a failed fetch, no document was written and the
    result is 0, or the whole document was written and the result is the
    count of its envelope, the number of entries of the rows: it never
    returns a count that is not zero without a document. *)
Theorem convert_vocab_returns (w : World)
  (name csv_source output_path output_format : str) (source_is_url : bool)
  (n : nat) :
  let r := convert_vocab w name csv_source output_path output_format source_is_url in
  returned r = Ret n ->
  (read_rows w csv_source source_is_url = Raise RuntimeError
   /\ written r = None /\ n = 0)
  \/ (exists rows doc,
        read_rows w csv_source source_is_url = Ret rows
        /\ written r = Some doc
        /\ n = length (emitted name rows)
        /\ doc_count doc = Some (JInt n)).
Proof.
  unfold convert_vocab. fold (read_rows w csv_source source_is_url).
  destruct (if source_is_url then Ret csv_source else relative_to_root w csv_source)
    as [source_desc|e]; [|discriminate].
  destruct (dict_get str_eqb VOCABS name) as [type|]; [|discriminate].
  destruct (read_rows w csv_source source_is_url) as [rows|e].
  2: { destruct e; try discriminate. intros [= <-]. left. repeat split. }
  destruct (collect_entries name rows []) as [entries|e] eqn:Hc; [|discriminate].
  apply collect_entries_emitted in Hc. simpl in Hc. subst entries.
  destruct (writable w output_path); cbn [negb]; [|discriminate].
  right. exists rows.
  destruct (str_eqb output_format (lit "jsonl")); cbn [returned written] in *;
    injection H as <-; eexists; repeat split; reflexivity.
Qed.

Lemma convert_vocab_returns_witness :
  returned (convert_vocab offline_world (lit "licenses")
              (lit "https://example.org/licenses.csv")
              (lit "public/data/licenses.jsonl") (lit "jsonl") true)
  = Ret 0
  /\ ((read_rows offline_world (lit "https://example.org/licenses.csv") true
       = Raise RuntimeError
       /\ written (convert_vocab offline_world (lit "licenses")
                     (lit "https://example.org/licenses.csv")
                     (lit "public/data/licenses.jsonl") (lit "jsonl") true)
          = None
       /\ 0 = 0)
      \/ exists rows doc,
           read_rows offline_world (lit "https://example.org/licenses.csv") true
           = Ret rows
           /\ written (convert_vocab offline_world (lit "licenses")
                         (lit "https://example.org/licenses.csv")
                         (lit "public/data/licenses.jsonl") (lit "jsonl") true)
              = Some doc
           /\ 0 = length (emitted (lit "licenses") rows)
           /\ doc_count doc = Some (JInt 0)).
Proof.
  split; [reflexivity|].
  exact (convert_vocab_returns offline_world (lit "licenses")
           (lit "https://example.org/licenses.csv")
           (lit "public/data/licenses.jsonl") (lit "jsonl") true 0 eq_refl).
Defined.

(** X9.  [convert_vocab] looks the vocabulary up before it reads the
    source: for a name that is not a key of [VOCABS] it raises [KeyError]
    (the [ValueError] of a local source outside [ROOT] comes first) and
    writes nothing, whatever the source holds. *)
Theorem convert_vocab_unknown_name (w : World)
  (name csv_source output_path output_format : str) (source_is_url : bool) :
  ~ In name (dict_keys VOCABS) ->
  convert_vocab w name csv_source output_path output_format source_is_url
  = raises (match (if source_is_url then Ret csv_source
                   else relative_to_root w csv_source) with
            | Raise e => e
            | Ret _ => KeyError
            end).
Proof.
  intros Hname. unfold convert_vocab.
  rewrite (dict_get_not_in str_eqb str_eqb_eq VOCABS name Hname).
  destruct (if source_is_url then Ret csv_source else relative_to_root w csv_source);
    reflexivity.
Qed.

Lemma convert_vocab_unknown_name_witness :
  ~ In (lit "themes") (dict_keys VOCABS)
  /\ convert_vocab sample_world (lit "themes") (lit "docs/vocabularies/themes.csv")
       (lit "public/data/themes.jsonl") (lit "jsonl") false
     = raises KeyError.
Proof.
  assert (H : ~ In (lit "themes") (dict_keys VOCABS)).
  { cbn. intros [H|[H|[H|[H|[H|[H|[]]]]]]]; discriminate H. }
  split; [exact H|].
  exact (convert_vocab_unknown_name sample_world (lit "themes")
           (lit "docs/vocabularies/themes.csv") (lit "public/data/themes.jsonl")
           (lit "jsonl") false H).
Defined.

(** ** Counting *)

Lemma read_records_length (lines : list str) :
  (forall r rows, read_records r lines = Ret rows -> length rows <= S (length lines))
  /\ (forall rows, read_records parse_reset lines = Ret rows ->
                   length rows <= length lines).
Proof.
  induction lines as [|l rest [IH1 IH2]].
  - split.
    + intros r rows. cbn [read_records].
      destruct (negb (length (field r) =? 0)
                || ParserState_eqb (state r) IN_QUOTED_FIELD);
        intros [= <-]; cbn; lia.
    + intros rows [= <-]. cbn. lia.
  - assert (Hstep : forall r rows,
               read_records r (l :: rest) = Ret rows ->
               length rows <= S (length rest)).
    { intros r rows. cbn [read_records].
      destruct (parse_line r l) as [r'|e]; cbn [bind]; [|discriminate].
      destruct (state r');
        try (intros H; exact (IH1 _ _ H)).
      destruct (read_records parse_reset rest) as [rows'|e] eqn:Hr;
        cbn [bind]; [|discriminate].
      intros [= <-]. specialize (IH2 rows' eq_refl). cbn [length]. lia. }
    split.
    + intros r rows H. specialize (Hstep r rows H). cbn [length]. lia.
    + intros rows H. exact (Hstep _ _ H).
Qed.

Lemma csv_reader_length (lines : list str) (records : list (list str)) :
  csv_reader lines = Ret records -> length records <= length lines.
Proof. apply (proj2 (read_records_length lines)). Qed.

(** There are never more rows than lines, and fewer under a header. *)
Lemma parse_csv_lines_length (lines : list str) (rows : list RawRow) :
  _parse_csv_lines lines = Ret rows ->
  length rows <= length lines
  /\ (has_header lines = true -> length rows < length lines).
Proof.
  intros Hp. destruct (has_header lines) eqn:Hh.
  - rewrite (parse_with_header lines Hh) in Hp. unfold DictReader in Hp.
    destruct (csv_reader lines) as [records|e] eqn:Hr; cbn [bind] in Hp;
      [|discriminate].
    apply csv_reader_length in Hr.
    assert (Hlt : length rows < length lines).
    { destruct records as [|f data]; injection Hp as <-.
      - destruct lines; [discriminate Hh|cbn; lia].
      - rewrite length_map.
        pose proof (filter_length_le (fun row => negb (is_blank_record row)) data).
        cbn [length] in Hr. lia. }
    split; [lia|intros _; exact Hlt].
  - split; [|discriminate].
    destruct lines as [|l t]; [injection Hp as <-; cbn; lia|].
    rewrite (parse_no_header (l :: t) ltac:(discriminate) Hh) in Hp.
    destruct (csv_reader (l :: t)) as [records|e] eqn:Hr; [|discriminate].
    injection Hp as <-. apply csv_reader_length in Hr.
    unfold positional_rows. now rewrite length_map.
Qed.

Lemma emitted_length (name : str) (rows : list RawRow) :
  length (emitted name rows) <= length rows.
Proof.
  unfold emitted. induction rows as [|row t IH]; [cbn; lia|].
  cbn [flat_map]. rewrite length_app. cbn [length].
  destruct (normalize_vocab_entry name row) as [[e|]|x]; cbn [length]; lia.
Qed.

(** X10.  The number that [convert_vocab] returns never exceeds the number
    of lines of the source that are neither comments nor blank, and is
    smaller than it when the first of them is a header. *)
Theorem count_at_most_lines (w : World)
  (name csv_source output_path output_format : str) (source_is_url : bool)
  (text : str) (n : nat) :
  (if source_is_url then urlopen_read w csv_source else open_read w csv_source)
  = Ret text ->
  returned (convert_vocab w name csv_source output_path output_format source_is_url)
  = Ret n ->
  let lines := keep_lines (if source_is_url then splitlines text
                           else file_lines text) in
  n <= length lines /\ (has_header lines = true -> n < length lines).
Proof.
  intros Htext Hret lines.
  assert (Hrows : read_rows w csv_source source_is_url = _parse_csv_lines lines).
  { unfold read_rows, read_csv_rows_from_url, read_csv_rows_from_path, lines.
    destruct source_is_url; now rewrite Htext. }
  destruct (convert_vocab_cases w name csv_source output_path output_format
              source_is_url) as [[e H]|[H|(rows & doc & Hr & H)]];
    rewrite H in Hret; cbn [returned] in Hret; [discriminate| |];
    injection Hret as <-.
  - split; [lia|]. intros Hh. destruct lines; [discriminate Hh|cbn; lia].
  - rewrite Hrows in Hr. apply parse_csv_lines_length in Hr as [Hle Hlt].
    pose proof (emitted_length name rows). split; [lia|].
    intros Hh. specialize (Hlt Hh). lia.
Qed.

Lemma count_at_most_lines_witness :
  returned (convert_vocab sample_world (lit "file_types")
              (lit "docs/vocabularies/file_types.csv")
              (lit "public/data/file_types.json") (lit "json") false)
  = Ret 1
  /\ 1 <= length (keep_lines (file_lines sample_csv))
  /\ (has_header (keep_lines (file_lines sample_csv)) = true ->
      1 < length (keep_lines (file_lines sample_csv))).
Proof.
  split; [vm_compute; reflexivity|].
  exact (count_at_most_lines sample_world (lit "file_types")
           (lit "docs/vocabularies/file_types.csv")
           (lit "public/data/file_types.json") (lit "json") false
           sample_csv 1 eq_refl ltac:(vm_compute; reflexivity)).
Defined.

(** ** main *)

Lemma convert_vocab_fetch_raises (w : World)
  (name url output_path output_format : str) (e : exn) :
  urlopen_read w url = Raise e ->
  let r := convert_vocab w name url output_path output_format true in
  written r = None /\ (returned r = Ret 0 \/ exists e', returned r = Raise e').
Proof.
  intros Hfetch r.
  destruct (convert_vocab_cases w name url output_path output_format true)
    as [[e' H]|[H|(rows & doc & Hr & H)]]; fold r in H.
  - rewrite H. split; [reflexivity|right; now exists e'].
  - rewrite H. split; [reflexivity|now left].
  - unfold read_rows, read_csv_rows_from_url in Hr. rewrite Hfetch in Hr.
    discriminate Hr.
Qed.

Lemma convert_local_raises (s : Site) (args : Args) (name : str) (fs fs' : Files)
  (e : exn) :
  convert_local s args name fs = (Raise e, fs') ->
  fs' = fs /\ forall fs0, convert_local s args name fs0 = (Raise e, fs0).
Proof.
  unfold convert_local, store.
  set (r := convert_vocab (site_world s) name
              (joinpath s (SRC s) (name ++ lit ".csv"))
              (joinpath s (arg_dst args) (name ++ lit "." ++ arg_format args))
              (arg_format args) false).
  intros H.
  assert (Hret : returned r = Raise e) by congruence.
  assert (Hw : written r = None).
  { exact (proj1 (convert_vocab_all_or_nothing_aux (site_world s) name
                    (joinpath s (SRC s) (name ++ lit ".csv"))
                    (joinpath s (arg_dst args) (name ++ lit "." ++ arg_format args))
                    (arg_format args) false) e Hret). }
  rewrite Hw in *. split; [congruence|]. intros fs0. now rewrite Hret.
Qed.

(** When the fetch raises, the body of the loop is the local conversion,
    or a count of 0 without a local file. *)
Lemma convert_named_fetch_raises (s : Site) (args : Args) (c : ascii) (b : str)
  (name : str) (fs : Files) (e : exn) :
  urlopen_read (site_world s) ((c :: b) ++ lit "/" ++ name ++ lit ".csv") = Raise e ->
  convert_named s args (Some (c :: b)) name fs
  = if path_exists s (joinpath s (SRC s) (name ++ lit ".csv"))
    then convert_local s args name fs
    else (Ret 0, fs).
Proof.
  intros Hfetch. unfold convert_named.
  destruct (convert_vocab_fetch_raises (site_world s) name
              ((c :: b) ++ lit "/" ++ name ++ lit ".csv")
              (joinpath s (arg_dst args) (name ++ lit "." ++ arg_format args))
              (arg_format args) e Hfetch) as [Hw Hret].
  assert (Hst : store fs
                  (joinpath s (arg_dst args) (name ++ lit "." ++ arg_format args))
                  (convert_vocab (site_world s) name
                     ((c :: b) ++ lit "/" ++ name ++ lit ".csv")
                     (joinpath s (arg_dst args) (name ++ lit "." ++ arg_format args))
                     (arg_format args) true) = fs)
    by (unfold store; now rewrite Hw).
  cbv zeta. rewrite !Hst.
  destruct Hret as [-> | [e' ->]]; [|reflexivity].
  destruct (path_exists s (joinpath s (SRC s) (name ++ lit ".csv"))) eqn:Hex;
    [|reflexivity].
  destruct (convert_local s args name fs) as [[count|e2] fs2] eqn:Hl;
    [reflexivity|].
  destruct (convert_local_raises s args name fs fs2 e2 Hl) as [-> Hagain].
  apply Hagain.
Qed.

(** X11.  When the fetch of the URL of a vocabulary raises and the local
    CSV file exists, the loop of [main] yields for that vocabulary what
    the conversion of the local file yields: its count or its exception,
    and its output file. *)
Theorem main_falls_back_to_local (s : Site) (args : Args) (c : ascii) (b : str)
  (name : str) (fs : Files) (e : exn) :
  urlopen_read (site_world s) ((c :: b) ++ lit "/" ++ name ++ lit ".csv") = Raise e ->
  path_exists s (joinpath s (SRC s) (name ++ lit ".csv")) = true ->
  convert_named s args (Some (c :: b)) name fs = convert_local s args name fs.
Proof.
  intros Hfetch Hex.
  now rewrite (convert_named_fetch_raises s args c b name fs e Hfetch), Hex.
Qed.

Lemma main_falls_back_to_local_witness :
  convert_named sample_site remote_args
    (Some (lit "https://example.org/vocabularies")) (lit "file_types") []
  = convert_local sample_site remote_args (lit "file_types") [].
Proof.
  apply (main_falls_back_to_local sample_site remote_args "h"
           (lit "ttps://example.org/vocabularies") (lit "file_types") []
           RuntimeError); reflexivity.
Defined.

(** The loop prints one count for each vocabulary it gets through, and
    carries their sum. *)
Lemma main_loop_reports (s : Site) (args : Args) (remote_base : option str)
  (names : list str) (total : nat) (printed : list (str * nat)) (fs : Files) :
  let o := main_loop s args remote_base names total printed fs in
  exists done,
    reports o = printed ++ done
    /\ match finished o with
       | Ret t => map fst done = names /\ t = total + list_sum (map snd done)
       | Raise _ => exists name rest, names = map fst done ++ name :: rest
       end.
Proof.
  revert total printed fs; induction names as [|name rest IH];
    intros total printed fs; cbn [main_loop].
  - exists []. cbn. rewrite app_nil_r. split; [reflexivity|]. split; [reflexivity|lia].
  - destruct (convert_named s args remote_base name fs) as [[count|e] fs'].
    + destruct (IH (total + count) (printed ++ [(name, count)]) fs')
        as (done & Hrep & Hfin).
      exists ((name, count) :: done). rewrite Hrep, <- app_assoc.
      split; [reflexivity|].
      destruct (finished (main_loop s args remote_base rest (total + count)
                            (printed ++ [(name, count)]) fs')).
      * destruct Hfin as [Hn Ht]. cbn [map fst snd].
        split; [now rewrite Hn|].
        change (list_sum (count :: map snd done))
          with (count + list_sum (map snd done)).
        lia.
      * destruct Hfin as (n & r & Hn). exists n, r. cbn [map fst].
        now rewrite Hn.
    + exists []. cbn. rewrite app_nil_r. split; [reflexivity|].
      now exists name, rest.
Qed.

(** X12.  A run of [main] that finishes has printed one count for each
    vocabulary, in the order of [VOCABS], and the total it prints is their
    sum; a run that an exception ends has printed the counts of the
    vocabularies before the one that raised. *)
Theorem main_reports_every_vocabulary (s : Site) (args : Args) (fs : Files) :
  mkdir_ok s (arg_dst args) = true ->
  match finished (main s args fs) with
  | Ret total =>
      map fst (reports (main s args fs)) = dict_keys VOCABS
      /\ total = list_sum (map snd (reports (main s args fs)))
  | Raise _ =>
      exists name rest,
        dict_keys VOCABS = map fst (reports (main s args fs)) ++ name :: rest
  end.
Proof.
  intros Hdir. unfold main. rewrite Hdir. cbn [negb].
  destruct (main_loop_reports s args (remote_base_of args) (dict_keys VOCABS)
              0 [] fs) as (done & Hrep & Hfin).
  cbn [app] in Hrep. rewrite Hrep.
  destruct (finished (main_loop s args (remote_base_of args) (dict_keys VOCABS)
                        0 [] fs)); exact Hfin.
Qed.

Lemma main_reports_every_vocabulary_witness :
  finished (main sample_site local_args []) = Ret 5
  /\ map fst (reports (main sample_site local_args [])) = dict_keys VOCABS
  /\ 5 = list_sum (map snd (reports (main sample_site local_args []))).
Proof.
  assert (Hfin : finished (main sample_site local_args []) = Ret 5)
    by (vm_compute; reflexivity).
  split; [exact Hfin|].
  pose proof (main_reports_every_vocabulary sample_site local_args [] eq_refl) as H.
  rewrite Hfin in H. exact H.
Defined.

Lemma convert_vocab_local_fetch (w : World) (fetch : str -> outcome str)
  (name csv_source output_path output_format : str) :
  convert_vocab
    (mkWorld (relative_to_root w) fetch (open_read w) (utcnow w) (writable w))
    name csv_source output_path output_format false
  = convert_vocab w name csv_source output_path output_format false.
Proof. reflexivity. Qed.

Lemma main_loop_local_fetch (s : Site) (fetch : str -> outcome str) (args : Args)
  (names : list str) (total : nat) (printed : list (str * nat)) (fs : Files) :
  main_loop (with_fetch s fetch) args None names total printed fs
  = main_loop s args None names total printed fs.
Proof.
  revert total printed fs; induction names as [|name rest IH];
    intros total printed fs; [reflexivity|].
  cbn [main_loop].
  replace (convert_named (with_fetch s fetch) args None name fs)
    with (convert_named s args None name fs) by reflexivity.
  destruct (convert_named s args None name fs) as [[count|e] fs'];
    [apply IH|reflexivity].
Qed.

(** X13.  With [--local], or with an empty remote base, [main] fetches
    nothing: whatever the network would answer, the run is the same. *)
Theorem main_local_never_fetches (s : Site) (fetch : str -> outcome str)
  (args : Args) (fs : Files) :
  arg_local args = true \/ arg_remote_base args = [] ->
  main (with_fetch s fetch) args fs = main s args fs.
Proof.
  intros Hlocal. unfold main.
  assert (Hrb : remote_base_of args = None).
  { unfold remote_base_of. destruct Hlocal as [-> | ->]; [reflexivity|].
    now destruct (arg_local args). }
  rewrite Hrb.
  replace (mkdir_ok (with_fetch s fetch) (arg_dst args))
    with (mkdir_ok s (arg_dst args)) by reflexivity.
  destruct (mkdir_ok s (arg_dst args)); cbn [negb]; [|reflexivity].
  apply main_loop_local_fetch.
Qed.

Lemma main_local_never_fetches_witness :
  main (with_fetch sample_site (fun _ => Ret (lit "http://example.org/other")))
       local_args []
  = main sample_site local_args [].
Proof.
  apply main_local_never_fetches. left. reflexivity.
Defined.




(** ** Plain lines *)

Lemma is_crlf_isspace (c : ascii) : is_crlf c = true -> isspace c = true.
Proof.
  unfold is_crlf. intros H. apply orb_true_iff in H as [H|H];
    apply Ascii.eqb_eq in H; subst c; reflexivity.
Qed.

Lemma forallb_impl {A : Type} (P Q : A -> bool) (l : list A) :
  (forall x, P x = true -> Q x = true) ->
  forallb P l = true -> forallb Q l = true.
Proof.
  intros HPQ. induction l as [|x t IH]; simpl; [reflexivity|].
  intros H. apply andb_true_iff in H as [Hx Ht].
  now rewrite (HPQ x Hx), IH.
Qed.

Lemma lstrip_all_space (s : str) : forallb isspace s = true -> lstrip s = [].
Proof.
  induction s as [|c t IH]; simpl; [reflexivity|]. intros H.
  apply andb_true_iff in H as [-> Ht]. now apply IH.
Qed.

(** A retained line has something before its terminator. *)
Lemma kept_line_has_cells (line : str) :
  skipped line = false -> cells_of line <> [].
Proof.
  intros Hk. unfold cells_of.
  destruct (chomp line) as [|c t] eqn:Hc; [|apply split_not_nil].
  destruct (chomp_tail line) as (tl & Hline & Htl). rewrite Hc in Hline.
  cbn [app] in Hline. subst tl.
  rewrite skipped_lstrip, lstrip_all_space in Hk; [discriminate|].
  exact (forallb_impl _ _ _ is_crlf_isspace Htl).
Qed.

(** On plain lines the Row Parser does not raise, and what it gives
    depends on the cells of the lines only. *)
Lemma parse_plain_lines (lines : list str) :
  forallb plain_line lines = true ->
  _parse_csv_lines lines
  = Ret (rows_of_cells (has_header lines) (map cells_of lines)).
Proof.
  intros Hplain. unfold rows_of_cells.
  destruct (has_header lines) eqn:Hh.
  - rewrite (parse_with_header lines Hh). unfold DictReader.
    rewrite (csv_reader_plain lines Hplain). cbn [bind].
    destruct lines; reflexivity.
  - destruct lines as [|l t]; [reflexivity|].
    rewrite (parse_no_header (l :: t) ltac:(discriminate) Hh).
    now rewrite (csv_reader_plain (l :: t) Hplain).
Qed.

Lemma keep_lines_kept (raw : list str) :
  forallb (fun line => negb (skipped line)) (keep_lines raw) = true.
Proof.
  unfold keep_lines. induction raw as [|l t IH]; [reflexivity|]. cbn [filter].
  destruct (negb (skipped l)) eqn:Hl; [|exact IH].
  cbn [forallb]. now rewrite Hl, IH.
Qed.

Lemma filter_all {A : Type} (f : A -> bool) (l : list A) :
  forallb f l = true -> filter f l = l.
Proof.
  induction l as [|x t IH]; simpl; [reflexivity|]. intros H.
  apply andb_true_iff in H as [-> Ht]. now rewrite IH.
Qed.

(** X15.  When no retained line holds a quote character, the Row Parser
    does not raise and gives exactly one row for every retained line, the
    header line excepted. *)
Theorem one_row_per_plain_line (raw : list str) :
  forallb plain_line (keep_lines raw) = true ->
  exists rows,
    _parse_csv_lines (keep_lines raw) = Ret rows
    /\ length rows
       = length (keep_lines raw) - (if has_header (keep_lines raw) then 1 else 0).
Proof.
  intros Hplain. rewrite (parse_plain_lines _ Hplain).
  eexists. split; [reflexivity|].
  pose proof (keep_lines_kept raw) as Hkept.
  unfold rows_of_cells.
  destruct (has_header (keep_lines raw)).
  - destruct (keep_lines raw) as [|l t]; [reflexivity|].
    cbn [map forallb] in *. apply andb_true_iff in Hkept as [_ Hkept].
    unfold named_rows. rewrite filter_all.
    + rewrite !length_map. cbn [length]. lia.
    + clear -Hkept. induction t as [|x t IH]; [reflexivity|].
      cbn [map forallb] in *. apply andb_true_iff in Hkept as [Hx Ht].
      rewrite (IH Ht), andb_true_r. apply negb_true_iff in Hx.
      pose proof (kept_line_has_cells x Hx).
      now destruct (cells_of x).
  - unfold positional_rows. rewrite !length_map. lia.
Qed.

Lemma one_row_per_plain_line_witness :
  forallb plain_line (keep_lines (file_lines mixed_csv)) = true
  /\ exists rows,
       _parse_csv_lines (keep_lines (file_lines mixed_csv)) = Ret rows
       /\ length rows
          = length (keep_lines (file_lines mixed_csv))
            - (if has_header (keep_lines (file_lines mixed_csv)) then 1 else 0).
Proof.
  assert (H : forallb plain_line (keep_lines (file_lines mixed_csv)) = true)
    by (vm_compute; reflexivity).
  split; [exact H|].
  exact (one_row_per_plain_line (file_lines mixed_csv) H).
Defined.

(** ** The two readers *)

Lemma in_crlf (c : ascii) : existsb (Ascii.eqb c) [CR; LF] = is_crlf c.
Proof.
  unfold is_crlf. cbn [existsb].
  destruct (Ascii.eqb c CR), (Ascii.eqb c LF); reflexivity.
Qed.

Lemma chomp_all_crlf (term : str) : forallb is_crlf term = true -> chomp term = [].
Proof.
  unfold chomp. induction term as [|c t IH]; [reflexivity|]. cbn [forallb rstrip_chars].
  intros H. apply andb_true_iff in H as [Hc Ht].
  now rewrite (IH Ht), in_crlf, Hc.
Qed.

Lemma chomp_app (body term : str) :
  forallb (fun c => negb (is_crlf c)) body = true ->
  forallb is_crlf term = true ->
  chomp (body ++ term) = body.
Proof.
  intros Hb Ht. induction body as [|c b IH]; [now apply chomp_all_crlf|].
  cbn [forallb] in Hb. apply andb_true_iff in Hb as [Hc Hb].
  apply negb_true_iff in Hc. specialize (IH Hb).
  unfold chomp in *. cbn [app rstrip_chars]. rewrite IH, in_crlf, Hc.
  now destruct b.
Qed.

Lemma chomp_plain (s : str) :
  forallb (fun c => negb (is_crlf c)) s = true -> chomp s = s.
Proof.
  intros H. rewrite <- (app_nil_r s) at 1. now apply chomp_app.
Qed.

Lemma rstrip_chars_idempotent (chars s : str) :
  rstrip_chars chars (rstrip_chars chars s) = rstrip_chars chars s.
Proof.
  induction s as [|c t IH]; [reflexivity|]. cbn [rstrip_chars].
  destruct (rstrip_chars chars t) as [|x r] eqn:Hr.
  - destruct (existsb (Ascii.eqb c) chars) eqn:Hc; [reflexivity|].
    cbn [rstrip_chars]. now rewrite Hc.
  - change (rstrip_chars chars (c :: x :: r))
      with (match rstrip_chars chars (x :: r) with
            | [] => if existsb (Ascii.eqb c) chars then [] else [c]
            | y :: r' => c :: y :: r'
            end).
    now rewrite IH.
Qed.

Lemma chomp_idempotent (line : str) : chomp (chomp line) = chomp line.
Proof. apply rstrip_chars_idempotent. Qed.

Lemma forallb_reverse {A : Type} (f : A -> bool) (l : list A) :
  forallb f (rev l) = forallb f l.
Proof.
  induction l as [|x t IH]; [reflexivity|]. cbn [rev forallb].
  rewrite forallb_app, IH. cbn [forallb]. rewrite andb_true_r. apply andb_comm.
Qed.

Lemma forallb_mapped {A B : Type} (f : B -> bool) (g : A -> B) (l : list A) :
  forallb f (map g l) = forallb (fun x => f (g x)) l.
Proof.
  induction l as [|x t IH]; [reflexivity|]. cbn [map forallb]. now rewrite IH.
Qed.

(** On a text without the line ends that only [splitlines] knows, its
    lines are the lines of the file without their terminators. *)
Lemma splitlines_file_lines (n : nat) (text cur : str) :
  length text <= n ->
  forallb tame_char text = true ->
  forallb (fun c => negb (is_crlf c)) cur = true ->
  map chomp (file_lines_from cur text) = splitlines_from cur text.
Proof.
  revert text cur; induction n as [|n IH]; intros text cur Hn Htame Hcur.
  - destruct text; [|cbn in Hn; lia]. cbn [file_lines_from splitlines_from].
    destruct cur as [|x cur]; [reflexivity|]. cbn [map]. f_equal.
    apply chomp_plain. now rewrite forallb_reverse.
  - assert (Hrev : forallb (fun c => negb (is_crlf c)) (rev cur) = true)
      by now rewrite forallb_reverse.
    destruct text as [|c t].
    + cbn [file_lines_from splitlines_from].
      destruct cur as [|x cur]; [reflexivity|]. cbn [map]. f_equal.
      now apply chomp_plain.
    + cbn [length] in Hn. cbn [forallb] in Htame.
      apply andb_true_iff in Htame as [Hc Ht].
      cbn [file_lines_from splitlines_from].
      destruct (Ascii.eqb c LF) eqn:HLF.
      * apply Ascii.eqb_eq in HLF. subst c.
        replace (Ascii.eqb LF CR) with false by reflexivity.
        replace (is_linebreak LF) with true by reflexivity.
        cbn [map rev]. f_equal; [now apply chomp_app|].
        apply IH; [lia|exact Ht|reflexivity].
      * destruct (Ascii.eqb c CR) eqn:HCR.
        -- apply Ascii.eqb_eq in HCR. subst c.
           destruct t as [|c' t'].
           ++ cbn [map rev]. f_equal. now apply chomp_app.
           ++ destruct (Ascii.eqb c' LF) eqn:HLF'.
              ** apply Ascii.eqb_eq in HLF'. subst c'.
                 cbn [map rev]. rewrite <- app_assoc. cbn [app].
                 f_equal; [now apply chomp_app|].
                 cbn [forallb] in Ht. apply andb_true_iff in Ht as [_ Ht'].
                 apply IH; [cbn [length] in Hn; lia|exact Ht'|reflexivity].
              ** cbn [map rev]. f_equal; [now apply chomp_app|].
                 apply IH; [lia|exact Ht|reflexivity].
        -- assert (Hlb : is_linebreak c = false).
           { unfold tame_char, is_crlf in Hc. rewrite HLF, HCR in Hc.
             cbn [orb] in Hc. rewrite orb_false_r in Hc.
             now apply negb_true_iff in Hc. }
           rewrite Hlb. apply IH; [lia|exact Ht|].
           cbn [forallb]. unfold is_crlf at 1. now rewrite HLF, HCR.
Qed.

Lemma rstrip_app_space (s ws : str) :
  forallb isspace ws = true -> rstrip (s ++ ws) = rstrip s.
Proof.
  intros Hws. induction s as [|c t IH].
  - cbn [app]. induction ws as [|x w IHw]; [reflexivity|].
    cbn [forallb] in Hws. apply andb_true_iff in Hws as [Hx Hw].
    cbn [rstrip]. now rewrite (IHw Hw), Hx.
  - cbn [app rstrip]. now rewrite IH.
Qed.

Lemma lstrip_app_space (s ws : str) :
  forallb isspace ws = true ->
  lstrip (s ++ ws) = match lstrip s with
                     | [] => []
                     | x => x ++ ws
                     end.
Proof.
  intros Hws. induction s as [|c t IH].
  - cbn [app lstrip]. now apply lstrip_all_space.
  - cbn [app lstrip]. destruct (isspace c); [exact IH|reflexivity].
Qed.

Lemma strip_app_space (s ws : str) :
  forallb isspace ws = true -> strip (s ++ ws) = strip s.
Proof.
  intros Hws. unfold strip. rewrite (lstrip_app_space s ws Hws).
  destruct (lstrip s) as [|c t]; [reflexivity|].
  now apply rstrip_app_space.
Qed.

Lemma chomp_space_tail (line : str) :
  exists ws, line = chomp line ++ ws /\ forallb isspace ws = true.
Proof.
  destruct (chomp_tail line) as (tl & Hline & Htl).
  exists tl. split; [exact Hline|].
  exact (forallb_impl _ _ _ is_crlf_isspace Htl).
Qed.

Lemma strip_chomp (line : str) : strip (chomp line) = strip line.
Proof.
  destruct (chomp_space_tail line) as (ws & Hline & Hws).
  rewrite Hline at 2. symmetry. now apply strip_app_space.
Qed.

Lemma skipped_chomp (line : str) : skipped (chomp line) = skipped line.
Proof.
  destruct (chomp_space_tail line) as (ws & Hline & Hws).
  rewrite (skipped_lstrip line), (skipped_lstrip (chomp line)).
  rewrite Hline at 2. rewrite (lstrip_app_space _ ws Hws).
  now destruct (lstrip (chomp line)).
Qed.

Lemma keep_lines_chomp (lines : list str) :
  keep_lines (map chomp lines) = map chomp (keep_lines lines).
Proof.
  unfold keep_lines. induction lines as [|l t IH]; [reflexivity|].
  cbn [map filter]. rewrite skipped_chomp, IH.
  now destruct (negb (skipped l)).
Qed.

Lemma plain_line_chomp (line : str) :
  plain_line line = true -> plain_line (chomp line) = true.
Proof.
  unfold plain_line. intros H. apply andb_true_iff in H as [Hb Hlen].
  rewrite chomp_idempotent, Hb. cbn [andb].
  apply N.leb_le in Hlen. apply N.leb_le.
  destruct (chomp_tail line) as (tl & Hline & _).
  rewrite Hline in Hlen at 1. rewrite length_app in Hlen. lia.
Qed.

Lemma cells_of_chomp (line : str) : cells_of (chomp line) = cells_of line.
Proof. unfold cells_of. now rewrite chomp_idempotent. Qed.

Lemma has_header_chomp (lines : list str) :
  has_header (map chomp lines) = has_header lines.
Proof.
  destruct lines as [|l t]; [reflexivity|].
  unfold has_header. cbn [map]. now rewrite strip_chomp.
Qed.

(** Plain lines parse alike with and without their terminators. *)
Lemma parse_chomped_lines (lines : list str) :
  forallb plain_line lines = true ->
  _parse_csv_lines (map chomp lines) = _parse_csv_lines lines.
Proof.
  intros Hplain.
  rewrite (parse_plain_lines lines Hplain), parse_plain_lines.
  - rewrite has_header_chomp, map_map. f_equal. f_equal.
    apply map_ext. apply cells_of_chomp.
  - rewrite forallb_mapped.
    exact (forallb_impl _ _ _ plain_line_chomp Hplain).
Qed.

(** X16.  The two readers agree on the texts of this development, whose
    characters are code points below 256: such a text, without quote
    characters and without the line ends that [str.splitlines] knows and
    file iteration does not (below 256 these are VT, FF, FS, GS, RS and
    NEL), gives the same rows when it is fetched from a URL and when it is
    read from a local file. *)
Theorem readers_agree (w : World) (url path text : str) :
  urlopen_read w url = Ret text ->
  open_read w path = Ret text ->
  forallb tame_char text = true ->
  forallb plain_line (keep_lines (file_lines text)) = true ->
  read_csv_rows_from_url w url = read_csv_rows_from_path w path.
Proof.
  intros Hurl Hpath Htame Hplain.
  unfold read_csv_rows_from_url, read_csv_rows_from_path.
  rewrite Hurl, Hpath. cbn [bind]. unfold splitlines, file_lines in *.
  rewrite <- (splitlines_file_lines (length text) text [] (le_n _) Htame eq_refl).
  rewrite keep_lines_chomp. now apply parse_chomped_lines.
Qed.

Lemma readers_agree_witness :
  forallb tame_char mixed_csv = true
  /\ forallb plain_line (keep_lines (file_lines mixed_csv)) = true
  /\ read_csv_rows_from_url mixed_world (lit "https://example.org/access_rights.csv")
     = read_csv_rows_from_path mixed_world (lit "docs/vocabularies/access_rights.csv").
Proof.
  assert (H1 : forallb tame_char mixed_csv = true) by (vm_compute; reflexivity).
  assert (H2 : forallb plain_line (keep_lines (file_lines mixed_csv)) = true)
    by (vm_compute; reflexivity).
  split; [exact H1|]. split; [exact H2|].
  exact (readers_agree mixed_world (lit "https://example.org/access_rights.csv")
           (lit "docs/vocabularies/access_rights.csv") mixed_csv
           eq_refl eq_refl H1 H2).
Defined.

(** ** Columns of the same name *)

Lemma lowered_keys_app (row tail : RawRow) (acc : @dict str str) :
  lowered_keys acc (row ++ tail)
  = (keys <- lowered_keys acc row ;; lowered_keys keys tail).
Proof.
  revert acc; induction row as [|[k v] t IH]; intros acc; [reflexivity|].
  cbn [app lowered_keys]. destruct k as [name|]; [|reflexivity].
  destruct (clean_value v); cbn [bind]; [apply IH|reflexivity].
Qed.

Lemma lookup_ci_none (row : RawRow) (name : str) :
  (forall k v, In (Some k, v) row -> strip (lower k) <> name) ->
  lookup_ci row name = None.
Proof.
  induction row as [|[k v] t IH]; intros H; [reflexivity|].
  cbn [lookup_ci]. rewrite IH by (intros k' v' Hin; apply (H k' v'); now right).
  destruct k as [k|]; [|reflexivity].
  destruct (str_eqb (strip (lower k)) name) eqn:E; [|reflexivity].
  apply str_eqb_eq in E. destruct (H k v (or_introl eq_refl) E).
Qed.

Lemma lookup_ci_last (before after : RawRow) (k : str) (v : cell) :
  (forall k' v', In (Some k', v') after -> strip (lower k') <> strip (lower k)) ->
  lookup_ci (before ++ (Some k, v) :: after) (strip (lower k)) = Some v.
Proof.
  intros Hafter. induction before as [|[k0 v0] t IH].
  - cbn [app lookup_ci]. rewrite (lookup_ci_none after _ Hafter).
    now rewrite str_eqb_refl.
  - cbn [app lookup_ci]. now rewrite IH.
Qed.

(** X17.  Of the columns of a row whose names are the same once lowered
    and trimmed, the Entry Normalizer reads the last one, wherever it
    stands in the row: its cell trimmed, or the empty string when the cell
    is empty or absent. *)
Theorem last_column_wins (before after : RawRow) (k : str) (v : cell)
  (keys : @dict str str) :
  lowered_keys [] (before ++ (Some k, v) :: after) = Ret keys ->
  (forall k' v', In (Some k', v') after -> strip (lower k') <> strip (lower k)) ->
  dict_get str_eqb keys (strip (lower k)) = Some (text_of v).
Proof.
  intros Hkeys Hafter.
  rewrite (lowered_keys_get _ [] keys Hkeys (strip (lower k))).
  now rewrite (lookup_ci_last before after k v Hafter).
Qed.

Lemma last_column_wins_witness :
  normalize_vocab_entry (lit "file_types")
    [(Some (lit "uri"), VStr (lit "http://example.org/Foo"));
     (Some (lit "URI "), VNone);
     (Some (lit "label"), VStr (lit "Foo"))]
  = Ret None
  /\ dict_get str_eqb [(lit "uri", ([] : str)); (lit "label", lit "Foo")]
       (strip (lower (lit "URI "))) = Some (text_of VNone).
Proof.
  split; [vm_compute; reflexivity|].
  apply (last_column_wins
           [(Some (lit "uri"), VStr (lit "http://example.org/Foo"))]
           [(Some (lit "label"), VStr (lit "Foo"))] (lit "URI ") VNone).
  - vm_compute. reflexivity.
  - intros k' v' [[= <- _]|[]]. vm_compute. discriminate.
Defined.

(** ** A row that raises *)

Lemma collect_entries_raises (name : str) (rows : list RawRow) (acc : list Entry) :
  existsb (fun row => negb (str_row row)) rows = true ->
  collect_entries name rows acc = Raise AttributeError.
Proof.
  revert acc; induction rows as [|row rest IH]; intros acc H; [discriminate|].
  cbn [existsb collect_entries] in *.
  destruct (normalize_raises_aux name row) as [Hbad Hgood].
  destruct (str_row row) eqn:Hrow.
  - destruct (Hgood eq_refl) as [o ->]. cbn [bind negb orb] in *.
    destruct o as [[|kv e]|]; now apply IH.
  - now rewrite (Hbad eq_refl).
Qed.

(** X18.  One row with more cells than the header aborts the conversion
    of its vocabulary: [convert_vocab] raises [AttributeError] and writes
    no document, whatever the other rows hold. *)
Theorem surplus_cell_aborts (w : World)
  (name csv_source output_path output_format : str) (source_is_url : bool)
  (source_desc type : str) (rows : list RawRow) :
  (if source_is_url then Ret csv_source else relative_to_root w csv_source)
  = Ret source_desc ->
  dict_get str_eqb VOCABS name = Some type ->
  read_rows w csv_source source_is_url = Ret rows ->
  existsb (fun row => negb (str_row row)) rows = true ->
  convert_vocab w name csv_source output_path output_format source_is_url
  = raises AttributeError.
Proof.
  intros Hdesc Htype Hrows Hbad. unfold convert_vocab.
  fold (read_rows w csv_source source_is_url).
  now rewrite Hdesc, Htype, Hrows, (collect_entries_raises name rows [] Hbad).
Qed.

Lemma surplus_cell_aborts_witness :
  convert_vocab surplus_world (lit "file_types")
    (lit "docs/vocabularies/file_types.csv") (lit "public/data/file_types.jsonl")
    (lit "jsonl") false
  = raises AttributeError.
Proof.
  eapply (surplus_cell_aborts surplus_world (lit "file_types")
            (lit "docs/vocabularies/file_types.csv")
            (lit "public/data/file_types.jsonl") (lit "jsonl") false);
    vm_compute; reflexivity.
Defined.

(** ** The file of a reported count *)

Lemma convert_vocab_count (w : World)
  (name csv_source output_path output_format : str) (source_is_url : bool)
  (n : nat) :
  returned (convert_vocab w name csv_source output_path output_format source_is_url)
  = Ret (S n) ->
  exists doc,
    written (convert_vocab w name csv_source output_path output_format source_is_url)
    = Some doc
    /\ doc_count doc = Some (JInt (S n)).
Proof.
  unfold convert_vocab.
  destruct (if source_is_url then Ret csv_source else relative_to_root w csv_source)
    as [source_desc|e]; [|discriminate].
  destruct (dict_get str_eqb VOCABS name) as [type|]; [|discriminate].
  destruct (if source_is_url then read_csv_rows_from_url w csv_source
            else read_csv_rows_from_path w csv_source) as [rows|e];
    [|destruct e; discriminate].
  destruct (collect_entries name rows []) as [entries|e]; [|discriminate].
  destruct (writable w output_path); cbn [negb]; [|discriminate].
  destruct (str_eqb output_format (lit "jsonl")); cbn [returned written];
    intros [= ->]; eexists; split; reflexivity.
Qed.

Lemma convert_local_count (s : Site) (args : Args) (name : str) (fs fs' : Files)
  (n : nat) :
  convert_local s args name fs = (Ret (S n), fs') ->
  exists doc,
    dict_get str_eqb fs'
      (joinpath s (arg_dst args) (name ++ lit "." ++ arg_format args)) = Some doc
    /\ doc_count doc = Some (JInt (S n)).
Proof.
  unfold convert_local, store.
  set (r := convert_vocab (site_world s) name
              (joinpath s (SRC s) (name ++ lit ".csv"))
              (joinpath s (arg_dst args) (name ++ lit "." ++ arg_format args))
              (arg_format args) false).
  intros H. assert (Hret : returned r = Ret (S n)) by congruence.
  destruct (convert_vocab_count _ _ _ _ _ _ _ Hret) as (doc & Hw & Hc).
  fold r in Hw. rewrite Hw in H. injection H as _ <-.
  exists doc. split; [|exact Hc].
  apply (dict_get_set_same str_eqb str_eqb_eq).
Qed.

(** X19.  A vocabulary for which the loop of [main] reports a count that
    is not zero has its output file written in this run, with that count
    in its envelope. *)
Theorem main_count_is_written (s : Site) (args : Args) (remote_base : option str)
  (name : str) (fs fs' : Files) (n : nat) :
  convert_named s args remote_base name fs = (Ret (S n), fs') ->
  exists doc,
    dict_get str_eqb fs'
      (joinpath s (arg_dst args) (name ++ lit "." ++ arg_format args)) = Some doc
    /\ doc_count doc = Some (JInt (S n)).
Proof.
  unfold convert_named.
  assert (Hhandler : forall fs0,
             (if path_exists s (joinpath s (SRC s) (name ++ lit ".csv"))
              then convert_local s args name fs0 else (Ret 0, fs0))
             = (Ret (S n), fs') ->
             exists doc,
               dict_get str_eqb fs'
                 (joinpath s (arg_dst args) (name ++ lit "." ++ arg_format args))
               = Some doc
               /\ doc_count doc = Some (JInt (S n))).
  { intros fs0.
    destruct (path_exists s (joinpath s (SRC s) (name ++ lit ".csv")));
      [apply convert_local_count|discriminate]. }
  destruct remote_base as [[|c b]|].
  - destruct (path_exists s (joinpath s (SRC s) (name ++ lit ".csv")));
      cbn [negb]; [apply convert_local_count|discriminate].
  - cbv zeta.
    set (r := convert_vocab (site_world s) name
                ((c :: b) ++ lit "/" ++ name ++ lit ".csv")
                (joinpath s (arg_dst args) (name ++ lit "." ++ arg_format args))
                (arg_format args) true).
    destruct (returned r) as [[|m]|e] eqn:Hret.
    + destruct (path_exists s (joinpath s (SRC s) (name ++ lit ".csv"))) eqn:Hex;
        [|discriminate].
      destruct (convert_local s args name _) as [[count|e2] fs2] eqn:Hl.
      * intros [= -> <-]. exact (convert_local_count _ _ _ _ _ _ Hl).
      * intros H. exact (Hhandler fs2 H).
    + intros [= -> <-].
      destruct (convert_vocab_count _ _ _ _ _ _ _ Hret) as (doc & Hw & Hc).
      fold r in Hw. unfold store. rewrite Hw.
      exists doc. split; [|exact Hc].
      apply (dict_get_set_same str_eqb str_eqb_eq).
    + apply Hhandler.
  - destruct (path_exists s (joinpath s (SRC s) (name ++ lit ".csv")));
      cbn [negb]; [apply convert_local_count|discriminate].
Qed.

Lemma main_count_is_written_witness :
  exists fs',
    convert_named sample_site remote_args (remote_base_of remote_args)
      (lit "file_types") [] = (Ret 1, fs')
    /\ exists doc,
         dict_get str_eqb fs' (lit "public/data/file_types.jsonl") = Some doc
         /\ doc_count doc = Some (JInt 1).
Proof.
  eexists. split; [vm_compute; reflexivity|].
  apply (main_count_is_written sample_site remote_args
           (remote_base_of remote_args) (lit "file_types") []).
  vm_compute. reflexivity.
Defined.

(** ** Records longer than the header *)

(** C7 fails on the code, by a slip: a record with more cells than the
    header gets its surplus cells under the key [None], on which the dict
    comprehension of [normalize_vocab_entry] raises [AttributeError].  For
    the lines below the resolved uri is not empty, yet no entry is
    returned; on rows of named columns C7 holds ([uri_label_entry]). *)
Theorem uri_label_surplus_row_raises :
  let row : RawRow :=
    [(Some (lit "uri"), VStr (lit "http://example.org/Foo"));
     (Some (lit "label"), VStr (lit "Foo"));
     (None, VList [lit "extra"])] in
  _parse_csv_lines [lit "uri,label"; lit "http://example.org/Foo,Foo,extra"]
  = Ret [row]
  /\ resolved row [lit "uri"; lit "url"; lit "col0"] = lit "http://example.org/Foo"
  /\ normalize_vocab_entry (lit "file_types") row = Raise AttributeError.
Proof. cbv zeta. repeat split; vm_compute; reflexivity. Qed.

(** C6 fails on the code, by the same slip: for the lines below the
    resolved authority, code and url are not empty, yet
    [normalize_vocab_entry] raises [AttributeError] on the key [None] of
    the surplus cell and returns no entry; on rows of named columns C6
    holds ([licenses_entry]). *)
Theorem licenses_surplus_row_raises :
  let row : RawRow :=
    [(Some (lit "authority_uri"), VStr (lit "http://example.org/licenses/mit"));
     (Some (lit "code"), VStr (lit "MIT"));
     (Some (lit "url"), VStr (lit "http://example.org/mit.txt"));
     (None, VList [lit "extra"])] in
  _parse_csv_lines
    [lit "authority_uri,code,url";
     lit "http://example.org/licenses/mit,MIT,http://example.org/mit.txt,extra"]
  = Ret [row]
  /\ resolved row [lit "authority_uri"; lit "authority"; lit "col0"]
     = lit "http://example.org/licenses/mit"
  /\ resolved row [lit "code"; lit "id"; lit "col1"] = lit "MIT"
  /\ resolved row [lit "url"; lit "license_url"; lit "col2"]
     = lit "http://example.org/mit.txt"
  /\ normalize_vocab_entry (lit "licenses") row = Raise AttributeError.
Proof. cbv zeta. repeat split; vm_compute; reflexivity. Qed.
